(** * Envisage extension registry: a shallow embedding

    This development embeds [envisage/extension_registry.py] (class
    [ExtensionRegistry]) and the read-only value class of
    [envisage/extension_point.py] ([_ExtensionPointValue] with
    [_get_extensions]) and proves properties of them.

    Python objects are mutable and shared, so list objects live in a heap
    and are passed around by address; the registry's dictionaries are finite
    maps; a method is a function from the world to an outcome, which is
    either a normal return or a raised exception, in both cases with the
    world the call leaves behind.

    What a listener does when it is called is a parameter of the registry's
    methods.  [logger.debug] calls are left out.  Values marked ghost are
    not computed by the Python code; they record what it did. *)

From Stdlib Require Import ZArith.
From stdpp Require Import gmap strings list fin_maps pretty.

Local Open Scope Z_scope.
Local Open Scope string_scope.
Local Open Scope list_scope.

(** ** Python-level data *)

(** Address of a list object; identity of any other object (functions,
    instances) whose lifetime matters to a weak reference. *)
Abbreviation addr := nat (only parsing).
Abbreviation oid := nat (only parsing).

(** The exceptions that the embedded code raises or lets through.
    [UnknownExtensionPoint] is the exception class of
    [unknown_extension_point.py], raised with the id as its argument. *)
Inductive exn :=
  | UnknownExtensionPoint (extension_point_id : string)
  | ValueError (msg : string)
  | AttributeError (name : string)
  | IndexError
  | OtherError (tag : string).

(** A callable handed to the registry as a listener: a bound method
    [self.func] or any other callable object. *)
Inductive callable :=
  | BoundMethod (self func : oid)
  | Callable (obj : oid).

(** The two kinds of weak reference that [_saferef] builds. *)
Inductive weak :=
  | WeakMethod (self func : oid)
  | WeakRef (obj : oid).

(** [_saferef(listener)]: a [WeakMethod] for a bound method, a plain
    [weakref.ref] otherwise. *)
Definition _saferef (listener : callable) : weak :=
  match listener with
  | BoundMethod self func => WeakMethod self func
  | Callable obj => WeakRef obj
  end.

(** The [index] of a change event: [None] (left to [option]), an integer, or
    a slice. *)
Inductive key :=
  | Index (i : Z)
  | Slice (start stop step : option Z).

(** Modelled from the spec: the class [ExtensionPointChangedEvent] of
    [extension_point_changed_event.py], which is not among the sources.  It
    is built in [_call_listeners] from the four fields below; the spec gives
    it as [{extension_point_id, added, removed, index}].  [added] and
    [removed] are references to list objects. *)
Record ExtensionPointChangedEvent := {
  extension_point_id : string;
  added : addr;
  removed : addr;
  index : option key;
}.

(** What the registry uses of an [ExtensionPoint]: its [id]. *)
Record ExtensionPoint := {
  id : string;
  desc : string;
}.

(** The three traits of [ExtensionRegistry].  [_extensions] maps an id to
    the list object stored for it; [_listeners] is keyed by an id or by
    [None] (listeners to every extension point). *)
Record ExtensionRegistry := {
  _extensions : gmap string addr;
  _extension_points : gmap string ExtensionPoint;
  _listeners : gmap (option string) (list weak);
}.

#[global] Instance exn_eq_dec : EqDecision exn.
Proof. solve_decision. Defined.
#[global] Instance callable_eq_dec : EqDecision callable.
Proof. solve_decision. Defined.
#[global] Instance weak_eq_dec : EqDecision weak.
Proof. solve_decision. Defined.
#[global] Instance key_eq_dec : EqDecision key.
Proof. solve_decision. Defined.
#[global] Instance event_eq_dec : EqDecision ExtensionPointChangedEvent.
Proof. solve_decision. Defined.

(** ** Outcomes and the method monad *)

Inductive outcome (S A : Type) :=
  | Ok (a : A) (s : S)
  | Raise (e : exn) (s : S).
Arguments Ok {S A} a s.
Arguments Raise {S A} e s.

Definition state_of {S A} (r : outcome S A) : S :=
  match r with Ok _ s => s | Raise _ s => s end.

(** What the caller sees of an outcome: the value returned or the
    exception raised. *)
Definition value_of {S A} (r : outcome S A) : A + exn :=
  match r with Ok a _ => inl a | Raise e _ => inr e end.

Definition M (S A : Type) : Type := S → outcome S A.

Definition ret {S A} (a : A) : M S A := λ s, Ok a s.
Definition raise {S A} (e : exn) : M S A := λ s, Raise e s.
Definition bind {S A B} (c : M S A) (k : A → M S B) : M S B :=
  λ s, match c s with
       | Ok a s1 => k a s1
       | Raise e s1 => Raise e s1
       end.
Definition gets {S A} (f : S → A) : M S A := λ s, Ok (f s) s.
Definition modify {S} (f : S → S) : M S unit := λ s, Ok tt (f s).

Notation "'let!' x ':=' c 'in' k" := (bind c (λ x, k))
  (at level 10, x pattern, c at level 100, k at level 200, only parsing).
Notation "c ';;' k" := (bind c (λ _, k))
  (at level 100, k at level 200, right associativity, only parsing).

Section Registry.

(** Items of extension lists are opaque to the registry. *)
Context {V : Type} `{!EqDecision V}.

(** The world: the heap of list objects, the registry, the objects that
    have been garbage collected (a weak reference to one of them is
    expired), and the warnings issued so far.

    [private] is a ghost field: the list objects that the registry created
    itself and to which it has handed out no reference yet.  Code outside
    the registry cannot touch them. *)
Record World := {
  heap : gmap addr (list V);
  registry : ExtensionRegistry;
  collected : gset oid;
  warnings : list string;
  private : gset addr;
}.

Definition with_heap (f : gmap addr (list V) → gmap addr (list V)) (w : World) : World :=
  {| heap := f (heap w); registry := registry w; collected := collected w;
     warnings := warnings w; private := private w |}.
Definition with_registry (f : ExtensionRegistry → ExtensionRegistry) (w : World) : World :=
  {| heap := heap w; registry := f (registry w); collected := collected w;
     warnings := warnings w; private := private w |}.
Definition with_collected (f : gset oid → gset oid) (w : World) : World :=
  {| heap := heap w; registry := registry w; collected := f (collected w);
     warnings := warnings w; private := private w |}.
Definition with_warnings (f : list string → list string) (w : World) : World :=
  {| heap := heap w; registry := registry w; collected := collected w;
     warnings := f (warnings w); private := private w |}.
Definition with_private (f : gset addr → gset addr) (w : World) : World :=
  {| heap := heap w; registry := registry w; collected := collected w;
     warnings := warnings w; private := f (private w) |}.

Definition with_extensions (f : gmap string addr → gmap string addr)
    (r : ExtensionRegistry) : ExtensionRegistry :=
  {| _extensions := f (_extensions r); _extension_points := _extension_points r;
     _listeners := _listeners r |}.
Definition with_extension_points
    (f : gmap string ExtensionPoint → gmap string ExtensionPoint)
    (r : ExtensionRegistry) : ExtensionRegistry :=
  {| _extensions := _extensions r; _extension_points := f (_extension_points r);
     _listeners := _listeners r |}.
Definition with_listeners
    (f : gmap (option string) (list weak) → gmap (option string) (list weak))
    (r : ExtensionRegistry) : ExtensionRegistry :=
  {| _extensions := _extensions r; _extension_points := _extension_points r;
     _listeners := f (_listeners r) |}.

(** *** The heap of list objects *)

(** Contents of the list object at [a].  A Python reference never dangles;
    an address outside the heap reads as the empty list. *)
Definition contents (w : World) (a : addr) : list V := default [] (heap w !! a).

(** A new list object with contents [l]: a list display, [list(...)] or a
    full slice [x[:]]. *)
Definition new_list (l : list V) : M World addr :=
  λ w, let a := fresh (dom (heap w)) in Ok a (with_heap <[a := l]> w).

(** In-place mutation of the list object at [a] (append, remove, slice
    assignment, ...): its contents become [l]. *)
Definition mutate_list (a : addr) (l : list V) : M World unit :=
  modify (with_heap <[a := l]>).

(** *** Weak references *)

(** [ref()]: the referent, or [None] once its object has been collected.  A
    [WeakMethod] is dead as soon as the instance or the function is. *)
Definition deref (w : World) (ref : weak) : option callable :=
  match ref with
  | WeakMethod self func =>
      if decide (self ∈ collected w ∨ func ∈ collected w) then None
      else Some (BoundMethod self func)
  | WeakRef obj =>
      if decide (obj ∈ collected w) then None else Some (Callable obj)
  end.

(** ** The registry *)

(** What a call [listener(self, event)] does to the world is up to the
    listener: it may call back into the registry, mutate lists, drop
    objects, or raise. *)
Variable invoke : callable → ExtensionPointChangedEvent → M World unit.

(** [_check_extension_point] *)
Definition _check_extension_point (extension_point_id : string) : M World unit :=
  λ w, match _extension_points (registry w) !! extension_point_id with
       | None => Raise (UnknownExtensionPoint extension_point_id) w
       | Some _ => Ok tt w
       end.

(** [_get_extensions]: [self._extensions.setdefault(extension_point_id, [])].
    The list created for a missing id is stored and is registry-private;
    for an id that is present the new [[]] is dropped at once and is left
    out of the heap. *)
Definition _get_extensions (extension_point_id : string) : M World addr :=
  λ w, match _extensions (registry w) !! extension_point_id with
       | Some a => Ok a w
       | None =>
           (let! a := new_list [] in
            modify (with_private (union {[a]}));;
            modify (with_registry (with_extensions <[extension_point_id := a]>));;
            ret a) w
       end.

(** [_get_listener_refs]: a new list, the references for this id first,
    then the references for [None]. *)
Definition _get_listener_refs (extension_point_id : string) : M World (list weak) :=
  gets (λ w, let refs := [] in
             let refs := refs ++ default [] (_listeners (registry w) !! Some extension_point_id) in
             let refs := refs ++ default [] (_listeners (registry w) !! None) in
             refs).

(** The [for] loop of [_call_listeners].  The value returned is ghost: the
    listeners that this loop called, in call order. *)
Fixpoint _call_listeners_loop (refs : list weak) (event : ExtensionPointChangedEvent)
    : M World (list callable) :=
  match refs with
  | [] => ret []
  | ref :: refs =>
      let! o := gets (λ w, deref w ref) in
      match o with
      | Some listener =>
          invoke listener event;;
          let! called := _call_listeners_loop refs event in
          ret (listener :: called)
      | None => _call_listeners_loop refs event
      end
  end.

(** [_call_listeners].  The event carries references to [added] and
    [removed], which from here on are known outside the registry.  The value
    returned is ghost: the event and the listeners called with it. *)
Definition _call_listeners (refs : list weak) (extension_point_id : string)
    (added removed : addr) (index : option key)
    : M World (ExtensionPointChangedEvent * list callable) :=
  let event := {| extension_point_id := extension_point_id; added := added;
                  removed := removed; index := index |} in
  modify (with_private (λ p, p ∖ {[added; removed]}));;
  let! called := _call_listeners_loop refs event in
  ret (event, called).

(** [add_extension_point_listener] *)
Definition add_extension_point_listener (listener : callable)
    (extension_point_id : option string) : M World unit :=
  modify (with_registry (with_listeners (λ ls,
    let listeners := default [] (ls !! extension_point_id) in
    <[extension_point_id := listeners ++ [_saferef listener]]> ls))).

(** [add_extension_point] *)
Definition add_extension_point (extension_point : ExtensionPoint) : M World unit :=
  modify (with_registry (with_extension_points <[id extension_point := extension_point]>)).

(** [get_extensions]: [self._get_extensions(extension_point_id)[:]] *)
Definition get_extensions (extension_point_id : string) : M World addr :=
  let! a := _get_extensions extension_point_id in
  let! l := gets (λ w, contents w a) in
  new_list l.

(** [get_extension_point] *)
Definition get_extension_point (extension_point_id : string) : M World (option ExtensionPoint) :=
  gets (λ w, _extension_points (registry w) !! extension_point_id).

(** [remove_extension_point] *)
Definition remove_extension_point (extension_point_id : string)
    : M World (ExtensionPointChangedEvent * list callable) :=
  _check_extension_point extension_point_id;;
  modify (with_registry (with_extension_points (delete extension_point_id)));;
  let! stored := gets (λ w, _extensions (registry w) !! extension_point_id) in
  let! old :=
    match stored with
    | Some old =>
        modify (with_registry (with_extensions (delete extension_point_id)));;
        ret old
    | None => new_list []
    end in
  let! refs := _get_listener_refs extension_point_id in
  let! empty := new_list [] in
  _call_listeners refs extension_point_id empty old (Some (Index 0)).

(** [set_extensions]: the list object handed in is stored as it is, not a
    copy of it. *)
Definition set_extensions (extension_point_id : string) (extensions : addr)
    : M World (ExtensionPointChangedEvent * list callable) :=
  _check_extension_point extension_point_id;;
  let! old := _get_extensions extension_point_id in
  modify (with_registry (with_extensions <[extension_point_id := extensions]>));;
  let! refs := _get_listener_refs extension_point_id in
  _call_listeners refs extension_point_id extensions old None.

(** ** Callers of the registry *)

(** What is stored for an id, read without touching the registry: the
    contents of its list, empty when there is none. *)
Definition stored (w : World) (extension_point_id : string) : list V :=
  match _extensions (registry w) !! extension_point_id with
  | Some a => contents w a
  | None => []
  end.

(** The references that [_get_listener_refs] returns in [w]. *)
Definition listener_refs (w : World) (extension_point_id : string) : list weak :=
  default [] (_listeners (registry w) !! Some extension_point_id)
  ++ default [] (_listeners (registry w) !! None).

(** One action of the code around the registry: a call of a public method,
    the creation or in-place mutation of a list object, or the garbage
    collection of an object. *)
Inductive action :=
  | AddExtensionPoint (extension_point : ExtensionPoint)
  | RemoveExtensionPoint (extension_point_id : string)
  | GetExtensions (extension_point_id : string)
  | SetExtensions (extension_point_id : string) (extensions : addr)
  | AddExtensionPointListener (listener : callable) (extension_point_id : option string)
  | NewList (l : list V)
  | MutateList (a : addr) (l : list V)
  | Collect (o : oid).

Definition perform (c : action) : M World unit :=
  match c with
  | AddExtensionPoint ep => add_extension_point ep
  | RemoveExtensionPoint i => let! _ := remove_extension_point i in ret tt
  | GetExtensions i => let! _ := get_extensions i in ret tt
  | SetExtensions i a => let! _ := set_extensions i a in ret tt
  | AddExtensionPointListener l i => add_extension_point_listener l i
  | NewList l => let! _ := new_list l in ret tt
  | MutateList a l => mutate_list a l
  | Collect o => modify (with_collected (union {[o]}))
  end.

(** Outside code can only pass or mutate a list object that it holds a
    reference to: one that exists and is not private to the registry. *)
Definition permitted (w : World) (c : action) : Prop :=
  match c with
  | SetExtensions _ a => a ∈ dom (heap w) ∧ a ∉ private w
  | MutateList a _ => a ∈ dom (heap w) ∧ a ∉ private w
  | _ => True
  end.

(** A registry as [ExtensionRegistry()] creates it, in an empty heap. *)
Definition initial : World :=
  {| heap := ∅;
     registry := {| _extensions := ∅; _extension_points := ∅; _listeners := ∅ |};
     collected := ∅; warnings := []; private := ∅ |}.

(** The worlds that a program reaches from a new registry.  A step that
    raises leaves the world that the exception left behind. *)
Inductive reachable : World → Prop :=
  | reachable_initial : reachable initial
  | reachable_step w c :
      reachable w → permitted w c → reachable (state_of (perform c w)).

(** The invariant behind the registry's lists: private lists and stored
    lists are allocated, and the list stored for an id that is not an
    extension point is a private empty list, stored for no other id. *)
Definition consistent (w : World) : Prop :=
  private w ⊆ dom (heap w)
  ∧ (∀ i a, _extensions (registry w) !! i = Some a → a ∈ dom (heap w))
  ∧ (∀ i a, _extension_points (registry w) !! i = None →
            _extensions (registry w) !! i = Some a →
            a ∈ private w ∧ heap w !! a = Some []
            ∧ ∀ j, _extensions (registry w) !! j = Some a → j = i).

(** A listener that behaves like outside code keeps the invariant. *)
Definition listeners_consistent : Prop :=
  ∀ c ev w, consistent w → consistent (state_of (invoke c ev w)).

(** The listeners among [refs] that are met alive in a world where [I]
    holds return normally, in a world where [I] holds. *)
Definition listeners_keep (refs : list weak) (I : World → Prop) : Prop :=
  ∀ r c ev w, r ∈ refs → deref w r = Some c → I w →
    ∃ w', invoke c ev w = Ok tt w' ∧ I w'.

(** The list stored for an id, if any, is an allocated empty list. *)
Definition stored_empty (extension_point_id : string) (w : World) : Prop :=
  ∀ a, _extensions (registry w) !! extension_point_id = Some a → heap w !! a = Some [].

(** Between [w] and [w1] nothing has happened but changes to the
    descriptors and the stored entries of the registry: the listener table,
    the contents of every list, the objects collected and the warnings
    issued are the same. *)
Definition only_entries_changed (w w1 : World) : Prop :=
  _listeners (registry w1) = _listeners (registry w)
  ∧ (∀ a, contents w1 a = contents w a)
  ∧ collected w1 = collected w
  ∧ warnings w1 = warnings w.

(** Notification as the specification words it, to compare the dispatch
    loop with: the listeners are called one after another with the event,
    each in the world that the one before it left, and an exception from one
    of them ends the notification. *)
Fixpoint call_in_order (listeners : list callable) (event : ExtensionPointChangedEvent)
    : M World unit :=
  match listeners with
  | [] => ret tt
  | listener :: listeners =>
      invoke listener event;;
      call_in_order listeners event
  end.

(** ** Removing a listener *)

(** The object that the [ref] part of a weak reference points to: the
    instance for a [WeakMethod]. *)
Definition referent (r : weak) : oid :=
  match r with
  | WeakMethod self _ => self
  | WeakRef obj => obj
  end.

(** The objects that keep a callable alive as a listener. *)
Definition objects_of (listener : callable) : gset oid :=
  match listener with
  | BoundMethod self func => {[self; func]}
  | Callable obj => {[obj]}
  end.

(** [a == b] between two objects, as their classes define it: identity
    for functions and for instances of classes that do not define [__eq__],
    anything for the others.  The comparison is taken to have no effect of
    its own. *)
Variable object_eq : oid → oid → bool.

(** The test [item == value] of [list.remove], between a stored reference
    and the reference that [_saferef] has just made of the listener.

    Two plain references to one live object are one reference object
    ([weakref.ref] hands out the reference that exists), and [list.remove]
    takes an identical item as equal.  Otherwise the references are
    different objects and their [__eq__] decides.  [WeakMethod.__eq__]
    holds of two [WeakMethod]s that are both alive when the instances are
    equal and the functions are equal.  In the other cases [ref.__eq__]
    compares the referents with [==] when both exist, the instance being
    the referent of a [WeakMethod]; for a stored [WeakMethod] and a new
    plain reference it is the reflected comparison that runs, with the new
    referent on the left.  A reference whose referent is gone is equal only
    to itself, and a new reference is never a stored dead one. *)
Definition weak_eq (w : World) (item value : weak) : bool :=
  match item, value with
  | WeakMethod self1 func1, WeakMethod self2 func2 =>
      bool_decide (is_Some (deref w item)) && bool_decide (is_Some (deref w value))
      && object_eq self1 self2 && object_eq func1 func2
  | WeakRef obj1, WeakRef obj2 =>
      bool_decide (obj1 ∉ collected w) && bool_decide (obj2 ∉ collected w)
      && (bool_decide (obj1 = obj2) || object_eq obj1 obj2)
  | WeakRef obj1, WeakMethod self2 _ =>
      bool_decide (obj1 ∉ collected w) && bool_decide (self2 ∉ collected w)
      && object_eq obj1 self2
  | WeakMethod self1 _, WeakRef obj2 =>
      bool_decide (self1 ∉ collected w) && bool_decide (obj2 ∉ collected w)
      && object_eq obj2 self1
  end.

(** [list.remove]: the list without its first item equal to the value, or
    [None] when no item is. *)
Fixpoint list_remove {A} (eq : A → bool) (l : list A) : option (list A) :=
  match l with
  | [] => None
  | item :: l => if eq item then Some l else cons item <$> list_remove eq l
  end.

(** [remove_extension_point_listener].  [setdefault] stores the list for
    the key even when [remove] then raises. *)
Definition remove_extension_point_listener (listener : callable)
    (extension_point_id : option string) : M World unit :=
  λ w, let listeners := default [] (_listeners (registry w) !! extension_point_id) in
       match list_remove (λ item, weak_eq w item (_saferef listener)) listeners with
       | Some listeners' =>
           Ok tt (with_registry (with_listeners <[extension_point_id := listeners']>) w)
       | None =>
           Raise (ValueError "list.remove(x): x not in list")
             (with_registry (with_listeners <[extension_point_id := listeners]>) w)
       end.

End Registry.

Arguments World V : clear implicits.

(** ** Python lists: indexing and slicing *)

Section PyList.

Context {V : Type}.

(** [l[i]] for an integer [i]: negative indices count from the end. *)
Definition list_index (l : list V) (i : Z) : option V :=
  let n := Z.of_nat (length l) in
  let j := if decide (i < 0) then i + n else i in
  if decide (0 ≤ j < n) then l !! Z.to_nat j else None.

(** [slice(start, stop, step).indices(n)]; [None] when [step] is 0. *)
Definition slice_indices (start stop step : option Z) (n : Z) : option (Z * Z * Z) :=
  let step := default 1 step in
  if decide (step = 0) then None
  else
    let lower := if decide (step < 0) then -1 else 0 in
    let upper := if decide (step < 0) then n - 1 else n in
    let clamp (preset : Z) (o : option Z) :=
      match o with
      | None => preset
      | Some x => if decide (x < 0) then Z.max (x + n) lower else Z.min x upper
      end in
    Some (clamp (if decide (step < 0) then upper else lower) start,
          clamp (if decide (step < 0) then lower else upper) stop,
          step).

(** [list(range(start, stop, step))] for a non-zero [step]. *)
Definition range (start stop step : Z) : list Z :=
  let count :=
    if decide (0 < step) then
      if decide (start < stop) then (stop - start - 1) `div` step + 1 else 0
    else
      if decide (stop < start) then (start - stop - 1) `div` (- step) + 1 else 0 in
  (λ k, start + k * step) <$> seqZ 0 count.

(** [l[start:stop:step]] *)
Definition list_slice (l : list V) (start stop step : option Z) : option (list V) :=
  match slice_indices start stop step (Z.of_nat (length l)) with
  | None => None
  | Some (start, stop, step) =>
      Some (omap (λ j, l !! Z.to_nat j) (range start stop step))
  end.

End PyList.

(** ** The value of an extension point trait *)

Module extension_point.

Section Value.

Context {V : Type} `{!EqDecision V}.

(** A Python value as the methods below take and return it: an item, or a
    reference to a list object. *)
Inductive pyobject :=
  | Item (x : V)
  | ListRef (a : addr).

(** What [_get_extensions] uses of the object that owns the trait:
    [extension_registry] ([Some tt] stands for the registry of the world,
    [None] for a missing registry) and the extension point traits by
    name. *)
Record HasTraits := {
  extension_registry : option unit;
  traits : gmap string ExtensionPoint;
}.

(** An [_ExtensionPointValue]: [data] is the list that the object itself
    holds as a [TraitList]; [_object] and [_name] exist once
    [_set_reference] has run. *)
Record _ExtensionPointValue := {
  data : list V;
  _internal_use : bool;
  _object : option HasTraits;
  _name : option string;
}.

(** [TraitList.__setitem__] and [TraitList.__delitem__] belong to the Traits
    library: given the key (and the value) they yield the new [data], or
    raise, and may notify observers. *)
Variable TraitList___setitem__ : list V → key → pyobject → M (World V) (list V).
Variable TraitList___delitem__ : list V → key → M (World V) (list V).

(** The double quote character, for the text of a Python message. *)
Definition dquote : string := String (Ascii.ascii_of_nat 34) EmptyString.

(** [ExtensionPoint._get_extension_registry] *)
Definition _get_extension_registry (self : ExtensionPoint) (obj : HasTraits)
    : M (World V) unit :=
  match extension_registry obj with
  | None =>
      raise (ValueError
        ("The " +:+ dquote +:+ "ExtensionPoint" +:+ dquote
         +:+ " trait type can only be used in objects that have a reference to an extension registry via their "
         +:+ dquote +:+ "extension_registry" +:+ dquote
         +:+ " trait. Extension point Id <" +:+ id self +:+ ">"))
  | Some extension_registry => ret extension_registry
  end.

(** The module-level [_get_extensions(object, name)]: the extensions that
    the registry of [object] reports for the extension point of trait
    [name]. *)
Definition _get_extensions (object : HasTraits) (name : string) : M (World V) addr :=
  match traits object !! name with
  | None => raise (AttributeError "trait_type")
  | Some extension_point =>
      _get_extension_registry extension_point object;;
      get_extensions (id extension_point)
  end.

(** [list.__eq__], [list.__getitem__] and [list.__len__] on a list with
    contents [l]; [TraitList] inherits the three from [list]. *)
Definition list___eq__ (l : list V) (other : pyobject) : M (World V) bool :=
  gets (λ w, match other with
             | ListRef b => bool_decide (l = contents w b)
             | Item _ => false
             end).

Definition list___getitem__ (l : list V) (key : key) : M (World V) pyobject :=
  match key with
  | Index i =>
      match list_index l i with
      | Some x => ret (Item x)
      | None => raise IndexError
      end
  | Slice start stop step =>
      match list_slice l start stop step with
      | Some l' => let! a := new_list l' in ret (ListRef a)
      | None => raise (ValueError "slice step cannot be zero")
      end
  end.

Definition list___len__ (l : list V) : M (World V) nat := ret (length l).

(** [warnings.warn("Extension point cannot be mutated directly.",
    RuntimeWarning, stacklevel=2)] *)
Definition warn : M (World V) unit :=
  modify (with_warnings (λ ws, ws ++ ["Extension point cannot be mutated directly."])).

(** [__init__]: a [TraitList] holding the items of the list at [a]. *)
Definition __init__ (a : addr) : M (World V) _ExtensionPointValue :=
  let! l := gets (λ w, contents w a) in
  ret {| data := l; _internal_use := false; _object := None; _name := None |}.

(** [_set_reference] *)
Definition _set_reference (self : _ExtensionPointValue) (object : HasTraits)
    (name : string) : _ExtensionPointValue :=
  {| data := data self; _internal_use := _internal_use self;
     _object := Some object; _name := Some name |}.

Definition set_data (self : _ExtensionPointValue) (l : list V) : _ExtensionPointValue :=
  {| data := l; _internal_use := _internal_use self;
     _object := _object self; _name := _name self |}.

(** Reading [self._object] and [self._name]. *)
Definition reference (self : _ExtensionPointValue) : M (World V) (HasTraits * string) :=
  match _object self, _name self with
  | Some object, Some name => ret (object, name)
  | None, _ => raise (AttributeError "_object")
  | _, None => raise (AttributeError "_name")
  end.

(** The value [new] that [ExtensionPoint._update_cache] builds and caches
    for trait [trait_name] of [obj]. *)
Definition _update_cache (obj : HasTraits) (trait_name : string)
    : M (World V) _ExtensionPointValue :=
  let! a := _get_extensions obj trait_name in
  let! new := __init__ a in
  ret (_set_reference new obj trait_name).

(** The extensions that a method outside the internal path reads:
    [_get_extensions(self._object, self._name)]. *)
Definition current (self : _ExtensionPointValue) : M (World V) (list V) :=
  let! (object, name) := reference self in
  let! a := _get_extensions object name in
  gets (λ w, contents w a).

Definition __eq__ (self : _ExtensionPointValue) (other : pyobject) : M (World V) bool :=
  if _internal_use self then list___eq__ (data self) other
  else let! l := current self in list___eq__ l other.

Definition __getitem__ (self : _ExtensionPointValue) (key : key) : M (World V) pyobject :=
  if _internal_use self then list___getitem__ (data self) key
  else let! l := current self in list___getitem__ l key.

Definition __len__ (self : _ExtensionPointValue) : M (World V) nat :=
  if _internal_use self then list___len__ (data self)
  else let! l := current self in list___len__ l.

(** The mutating methods return the object as the call leaves it, next to
    the Python result. *)
Definition __delitem__ (self : _ExtensionPointValue) (key : key)
    : M (World V) (_ExtensionPointValue * unit) :=
  if negb (_internal_use self) then
    warn;; ret (self, tt)
  else
    let! l := TraitList___delitem__ (data self) key in
    ret (set_data self l, tt).

Definition __iadd__ (self : _ExtensionPointValue) (value : pyobject)
    : M (World V) (_ExtensionPointValue * pyobject) :=
  warn;;
  let! copy := __getitem__ self (Slice None None None) in
  ret (self, copy).

Definition __imul__ (self : _ExtensionPointValue) (value : Z)
    : M (World V) (_ExtensionPointValue * pyobject) :=
  warn;;
  let! copy := __getitem__ self (Slice None None None) in
  ret (self, copy).

Definition __setitem__ (self : _ExtensionPointValue) (key : key) (value : pyobject)
    : M (World V) (_ExtensionPointValue * unit) :=
  if negb (_internal_use self) then
    warn;; ret (self, tt)
  else
    let! l := TraitList___setitem__ (data self) key value in
    ret (set_data self l, tt).

Definition append (self : _ExtensionPointValue) (object : V)
    : M (World V) (_ExtensionPointValue * unit) :=
  warn;; ret (self, tt).

Definition clear (self : _ExtensionPointValue)
    : M (World V) (_ExtensionPointValue * unit) :=
  warn;; ret (self, tt).

Definition extend (self : _ExtensionPointValue) (iterable : addr)
    : M (World V) (_ExtensionPointValue * unit) :=
  warn;; ret (self, tt).

Definition insert (self : _ExtensionPointValue) (index : Z) (object : V)
    : M (World V) (_ExtensionPointValue * unit) :=
  warn;; ret (self, tt).

Definition pop (self : _ExtensionPointValue) (index : Z)
    : M (World V) (_ExtensionPointValue * unit) :=
  warn;; ret (self, tt).

Definition remove (self : _ExtensionPointValue) (value : V)
    : M (World V) (_ExtensionPointValue * unit) :=
  warn;; ret (self, tt).

(** A direct mutation attempt on a value: one of the methods above with
    its arguments. *)
Inductive mutation :=
  | Append (object : V)
  | Insert (index : Z) (object : V)
  | Remove (value : V)
  | SetItem (key : key) (value : pyobject)
  | IAdd (value : pyobject)
  | IMul (value : Z)
  | Clear
  | Pop (index : Z)
  | Extend (iterable : addr)
  | DelItem (key : key).

(** The call that a mutation stands for; the Python result is kept only
    where there is one ([+=] and [*=]). *)
Definition attempt (m : mutation) (self : _ExtensionPointValue)
    : M (World V) (_ExtensionPointValue * option pyobject) :=
  let none (c : M (World V) (_ExtensionPointValue * unit)) :=
    let! (self, _) := c in ret (self, None) in
  let some (c : M (World V) (_ExtensionPointValue * pyobject)) :=
    let! (self, v) := c in ret (self, Some v) in
  match m with
  | Append object => none (append self object)
  | Insert index object => none (insert self index object)
  | Remove value => none (remove self value)
  | SetItem key value => none (__setitem__ self key value)
  | IAdd value => some (__iadd__ self value)
  | IMul value => some (__imul__ self value)
  | Clear => none (clear self)
  | Pop index => none (pop self index)
  | Extend iterable => none (extend self iterable)
  | DelItem key => none (__delitem__ self key)
  end.

(** A value that is cached for a trait: it is outside the internal path and
    refers to an object with a registry and to one of its extension point
    traits. *)
Definition bound (self : _ExtensionPointValue) (extension_point_id : string) : Prop :=
  _internal_use self = false
  ∧ ∃ object name extension_point,
      _object self = Some object ∧ _name self = Some name
      ∧ extension_registry object = Some tt
      ∧ traits object !! name = Some extension_point
      ∧ id extension_point = extension_point_id.

End Value.

Section Binding.

Context {V : Type} `{!EqDecision V}.
Variable invoke : callable → ExtensionPointChangedEvent → M (World V) unit.
Variable object_eq : oid → oid → bool.

Abbreviation Value := (_ExtensionPointValue (V := V)).

(** [ExtensionPoint._get_cache_name] *)
Definition _get_cache_name (trait_name : string) : string :=
  "__envisage_" +:+ trait_name.

(** [ExtensionPoint.set], the trait type setter: the id is the one of the
    extension point, [value] the list assigned to the trait. *)
Definition set (self : ExtensionPoint) (obj : HasTraits) (name : string)
    (value : addr) : M (World V) (ExtensionPointChangedEvent * list callable) :=
  let! extension_registry := _get_extension_registry self obj in
  set_extensions invoke (id self) value.

Definition set_internal_use (self : Value) (flag : bool) : Value :=
  {| data := data self; _internal_use := flag;
     _object := _object self; _name := _name self |}.

(** A block of code that works on one value object: the state is the
    object together with the world. *)
Definition on_value {A}
    (method : Value → M (World V) (Value * A)) : M (Value * World V) A :=
  λ s, match method s.1 s.2 with
       | Ok (self, a) w => Ok a (self, w)
       | Raise e w => Raise e (s.1, w)
       end.

(** [_internal_sync]: the body of the [with] block runs with the flag set;
    [finally] clears the flag, also when the body raises. *)
Definition _internal_sync {A} (body : M (Value * World V) A)
    : M (Value * World V) A :=
  λ s, match body (set_internal_use s.1 true, s.2) with
       | Ok a s' => Ok a (set_internal_use s'.1 false, s'.2)
       | Raise e s' => Raise e (set_internal_use s'.1 false, s'.2)
       end.

(** *** Connecting a trait to the registry *)

(** [_obj_to_listeners_map] of one [ExtensionPoint]: for each object, by
    identity, the listener kept for each of its trait names. *)
Abbreviation listeners_map := (gmap oid (gmap string callable)) (only parsing).

(** A method of the registry, run by a method of the extension point. *)
Definition in_world {A} (c : M (World V) A) : M (listeners_map * World V) A :=
  λ s, match c s.2 with
       | Ok a w => Ok a (s.1, w)
       | Raise e w => Raise e (s.1, w)
       end.

(** The map holds the only strong reference to a listener function of
    [connect]: the registry refers to it weakly and the function is local
    to the call that made it.  [dropped old new] is the function that is
    collected, by reference counting at once, when the item [old] of the
    map is replaced by [new] or deleted. *)
Definition dropped (old new : option callable) : gset oid :=
  match old with
  | Some (Callable listener) => if decide (old = new) then ∅ else {[listener]}
  | _ => ∅
  end.

(** [ExtensionPoint.connect].  [listener] is the function object that this
    call creates for its nested [def listener]; [obj_id] is the identity of
    [obj].  Storing the listener under a trait name that has one already
    drops the earlier one. *)
Definition connect (self : ExtensionPoint) (obj_id : oid) (obj : HasTraits)
    (trait_name : string) (listener : oid) : M (listeners_map * World V) unit :=
  let! extension_registry := in_world (_get_extension_registry self obj) in
  in_world (add_extension_point_listener (Callable listener) (Some (id self)));;
  let! listeners := gets (λ s, default ∅ (s.1 !! obj_id)) in
  modify (λ s, (<[obj_id := <[trait_name := Callable listener]> listeners]> s.1,
                with_collected
                  (union (dropped (listeners !! trait_name) (Some (Callable listener))))
                  s.2)).

(** [ExtensionPoint.disconnect].  [self._obj_to_listeners_map[obj]] raises
    [KeyError], here [OtherError "KeyError"], for an object that has no
    entry.  After [del] the local variable [listener] is the last
    reference to the function, which is collected when the call returns. *)
Definition disconnect (self : ExtensionPoint) (obj_id : oid) (obj : HasTraits)
    (trait_name : string) : M (listeners_map * World V) unit :=
  let! extension_registry := in_world (_get_extension_registry self obj) in
  let! entry := gets (λ s, s.1 !! obj_id) in
  match entry with
  | None => raise (OtherError "KeyError")
  | Some listeners =>
      match listeners !! trait_name with
      | Some listener =>
          in_world (remove_extension_point_listener object_eq listener
                      (Some (id self)));;
          modify (λ s, (<[obj_id := delete trait_name
                                      (default ∅ (s.1 !! obj_id))]> s.1,
                        with_collected (union (dropped (Some listener) None)) s.2))
      | None => ret tt
      end
  end.

End Binding.

End extension_point.

(** ** The observable registry *)

Module ObservableExtensionRegistry.

Section Handler.

Context {V : Type}.
Variable invoke : callable → ExtensionPointChangedEvent → M (World V) unit.

(** The change event of a Traits dictionary, as the handler reads it: the
    items added and the items removed.  The keys of [_id_to_contrib] are
    strings ([Str]), never [None]. *)
Record DictChangeEvent := {
  added : gmap string addr;
  removed : gmap string addr;
}.

(** [dict.get(key, [])] *)
Definition dict_get (d : gmap string addr) (key : string) : M (World V) addr :=
  match d !! key with
  | Some a => ret a
  | None => new_list []
  end.

(** The [handler] that [_create_observer_handler] returns.  The value
    returned is ghost: the event that the listener was called with, if it
    was called. *)
Definition _create_observer_handler (listener : callable)
    (extension_point_id : option string) (event : DictChangeEvent)
    : M (World V) (option ExtensionPointChangedEvent) :=
  match extension_point_id with
  | None => ret None
  | Some i =>
      if bool_decide (added event !! i = None ∧ removed event !! i = None) then ret None
      else
        let! a := dict_get (added event) i in
        let! r := dict_get (removed event) i in
        invoke listener (Build_ExtensionPointChangedEvent i a r None);;
        ret (Some (Build_ExtensionPointChangedEvent i a r None))
  end.

End Handler.

End ObservableExtensionRegistry.

(** * A concrete program *)

(** A listener that, like the listener of [ExtensionPoint.connect], reads
    the extensions of the id of the event it is called with. *)
Definition reader (listener : callable) (event : ExtensionPointChangedEvent)
    : M (World Z) unit :=
  let! _ := get_extensions (extension_point_id event) in ret tt.

(** A world after the actions [cs], performed from [w]. *)
Definition after (cs : list action) (w : World Z) : World Z :=
  foldl (λ w c, state_of (perform reader c w)) w cs.

Definition x_point : ExtensionPoint := {| id := "x"; desc := "" |}.

(** Listener [A] is a bound method, listener [B] a function, and [gone] a
    function that has been collected. *)
Definition A : callable := BoundMethod 1 2.
Definition B : callable := Callable 3.
Definition gone : callable := Callable 4.

(** Extension point ["x"] with listener [A] on ["x"] and listener [B] on
    every id. *)
Definition listening : World Z :=
  after [AddExtensionPoint x_point;
         AddExtensionPointListener A (Some "x");
         AddExtensionPointListener B None] initial.

(** The same with the list [[1, 2, 3]], at address 0, set as the extensions
    of ["x"]. *)
Definition contributed : World Z :=
  after [NewList [1; 2; 3]; SetExtensions "x" 0%nat] listening.

(** Extension point ["x"] with [[1, 2, 3]] and one listener, whose function
    has been collected. *)
Definition expired : World Z :=
  after [AddExtensionPoint x_point;
         AddExtensionPointListener gone (Some "x");
         NewList [1; 2; 3];
         SetExtensions "x" 0%nat;
         Collect 4%nat] initial.

(** Extension point ["x"] added, contributed to and removed again. *)
Definition removed_again : World Z :=
  after [RemoveExtensionPoint "x"] contributed.

(** An object with a registry and a trait [exts] for extension point
    ["x"], and the value cached for that trait in [contributed]. *)
Definition owner : extension_point.HasTraits :=
  {| extension_point.extension_registry := Some tt;
     extension_point.traits := {["exts" := x_point]} |}.

Definition cached : extension_point._ExtensionPointValue (V := Z) :=
  {| extension_point.data := [1; 2; 3];
     extension_point._internal_use := false;
     extension_point._object := Some owner;
     extension_point._name := Some "exts" |}.

(** [TraitList.__setitem__] and [TraitList.__delitem__] for a list of
    integers that nobody observes: the new items are validated, then the
    operation is the one of [list].  A list object is no valid item, and an
    integer is no iterable of items.  A slice with step 1 is replaced by
    the items, however many; with another step as many items are needed as
    the slice has positions. *)
Definition plain___setitem__ (l : list Z) (key : key)
    (value : extension_point.pyobject (V := Z)) : M (World Z) (list Z) :=
  let n := Z.of_nat (length l) in
  match key, value with
  | Index i, extension_point.Item x =>
      let j := if decide (i < 0) then i + n else i in
      if decide (0 ≤ j < n) then ret (<[Z.to_nat j := x]> l)
      else raise IndexError
  | Index _, extension_point.ListRef _ => raise (OtherError "TraitError")
  | Slice _ _ _, extension_point.Item _ => raise (OtherError "TypeError")
  | Slice start stop step, extension_point.ListRef a =>
      let! items := gets (λ w, contents w a) in
      match slice_indices start stop step n with
      | None => raise (ValueError "slice step cannot be zero")
      | Some (start, stop, step) =>
          if decide (step = 1) then
            ret (take (Z.to_nat start) l ++ items
                 ++ drop (Z.to_nat (Z.max start stop)) l)
          else
            let positions := range start stop step in
            if decide (length items = length positions) then
              ret (foldl (λ l jx, <[Z.to_nat jx.1 := jx.2]> l) l (zip positions items))
            else
              raise (ValueError
                ("attempt to assign sequence of size " +:+ pretty (length items)
                 +:+ " to extended slice of size " +:+ pretty (length positions)))
      end
  end.

Definition plain___delitem__ (l : list Z) (key : key) : M (World Z) (list Z) :=
  let n := Z.of_nat (length l) in
  match key with
  | Index i =>
      let j := if decide (i < 0) then i + n else i in
      if decide (0 ≤ j < n) then ret (delete (Z.to_nat j) l)
      else raise IndexError
  | Slice start stop step =>
      match slice_indices start stop step n with
      | None => raise (ValueError "slice step cannot be zero")
      | Some (start, stop, step) =>
          let positions := range start stop step in
          ret (omap (λ jx, if decide (Z.of_nat jx.1 ∈ positions) then None
                           else Some jx.2)
                 (imap pair l))
      end
  end.

(** A listener that raises. *)
Definition failing (listener : callable) (event : ExtensionPointChangedEvent)
    : M (World Z) unit :=
  raise (OtherError "listener failed").

(** Listeners that read, but for [B], which raises. *)
Definition B_fails (listener : callable) (event : ExtensionPointChangedEvent)
    : M (World Z) unit :=
  if decide (listener = B) then raise (OtherError "listener failed")
  else reader listener event.

(** [==] when no class of the objects defines [__eq__]: identity. *)
Definition identical (a b : oid) : bool := bool_decide (a = b).

(** [==] when the callables 3 and 5 are instances of one class whose
    [__eq__] holds of any two of its instances. *)
Definition alike (a b : oid) : bool :=
  bool_decide (a = b ∨ ((a = 3 ∨ a = 5) ∧ (b = 3 ∨ b = 5)))%nat.

(** [listening] with a new list [[1, 2, 3]], at address 0, that is not yet
    set as the extensions of any id. *)
Definition with_list : World Z := after [NewList [1; 2; 3]] listening.

(** A value for the trait [exts] of an object that has no registry. *)
Definition lone_owner : extension_point.HasTraits :=
  {| extension_point.extension_registry := None;
     extension_point.traits := {["exts" := x_point]} |}.

Definition lone : extension_point._ExtensionPointValue (V := Z) :=
  {| extension_point.data := [1; 2; 3];
     extension_point._internal_use := false;
     extension_point._object := Some lone_owner;
     extension_point._name := Some "exts" |}.

(** * Properties *)

Section RegistryFacts.

Context {V : Type} `{!EqDecision V}.
Variable invoke : callable → ExtensionPointChangedEvent → M (World V) unit.

Implicit Types (w : World V) (refs : list weak) (ev : ExtensionPointChangedEvent).

(** ** Dispatch *)

Lemma _call_listeners_loop_app refs1 refs2 ev w :
  _call_listeners_loop invoke (refs1 ++ refs2) ev w =
  (let! called1 := _call_listeners_loop invoke refs1 ev in
   let! called2 := _call_listeners_loop invoke refs2 ev in
   ret (called1 ++ called2)) w.
Proof.
  revert w. induction refs1 as [|r refs1 IH]; intros w; simpl.
  - unfold bind, ret; simpl. by destruct (_call_listeners_loop _ _ _ _).
  - unfold bind, gets, ret in *; simpl. destruct (deref w r) as [c|].
    + destruct (invoke c ev w) as [[] w1|e w1]; [|done].
      rewrite IH.
      destruct (_call_listeners_loop invoke refs1 ev w1) as [called1 w2|]; [|done].
      by destruct (_call_listeners_loop invoke refs2 ev w2).
    + by rewrite IH.
Qed.

(** An expired reference is passed over. *)
Lemma _call_listeners_loop_expired r refs ev w :
  deref w r = None →
  _call_listeners_loop invoke (r :: refs) ev w = _call_listeners_loop invoke refs ev w.
Proof. intros H. simpl. unfold bind, gets. by rewrite H. Qed.

Lemma deref_collected w w' r : collected w' = collected w → deref w' r = deref w r.
Proof. intros H. unfold deref. by rewrite H. Qed.

Lemma omap_deref_collected w w' refs :
  collected w' = collected w → omap (deref w') refs = omap (deref w) refs.
Proof.
  intros H. induction refs as [|r refs IH]; [done|].
  csimpl. by rewrite IH, (deref_collected w w' r H).
Qed.

(** Dispatch among listeners that return normally and keep [I]. *)
Lemma _call_listeners_loop_keep refs ev (I : World V → Prop) w :
  listeners_keep invoke refs I → I w →
  ∃ called w', _call_listeners_loop invoke refs ev w = Ok called w' ∧ I w'.
Proof.
  revert w. induction refs as [|r refs IH]; intros w Hk HI.
  - by exists [], w.
  - simpl. unfold bind, gets, ret in *; simpl.
    assert (listeners_keep invoke refs I) as Hk'.
    { intros r' c' ev' w' Hin. apply Hk. by right. }
    destruct (deref w r) as [c|] eqn:Hd.
    + destruct (Hk r c ev w) as (w1 & Hinv & HI1); [by left|done|done|].
      rewrite Hinv. destruct (IH w1 Hk' HI1) as (called & w2 & Hloop & HI2).
      rewrite Hloop. by exists (c :: called), w2.
    + by apply IH.
Qed.

(** When moreover no object is collected meanwhile, the listeners called
    are the live referents, in the order of [refs]. *)
Lemma _call_listeners_loop_called refs ev (I : World V → Prop) C w :
  listeners_keep invoke refs I → (∀ w', I w' → collected w' = C) → I w →
  ∃ w', _call_listeners_loop invoke refs ev w = Ok (omap (deref w) refs) w' ∧ I w'.
Proof.
  intros Hk HC. revert w. induction refs as [|r refs IH]; intros w HI.
  - by exists w.
  - simpl. unfold bind, gets, ret in *; simpl.
    assert (listeners_keep invoke refs I) as Hk'.
    { intros r' c' ev' w' Hin. apply Hk. by right. }
    destruct (deref w r) as [c|] eqn:Hd.
    + destruct (Hk r c ev w) as (w1 & Hinv & HI1); [by left|done|done|].
      rewrite Hinv. destruct (IH Hk' w1 HI1) as (w2 & Hloop & HI2).
      rewrite Hloop. exists w2. split; [|done].
      do 2 f_equal. apply (omap_deref_collected w w1).
      by rewrite (HC w1), (HC w).
    + by apply IH.
Qed.

(** The loop notifies the listeners that it reports: the world it leaves
    is the world that calling them in order leaves. *)
Lemma _call_listeners_loop_in_order refs ev w called w' :
  _call_listeners_loop invoke refs ev w = Ok called w' →
  call_in_order invoke called ev w = Ok tt w'.
Proof.
  revert w called w'. induction refs as [|r refs IH]; intros w called w'; simpl.
  - unfold ret. by intros [= <- <-].
  - unfold bind, gets, ret; simpl. destruct (deref w r) as [c|].
    + destruct (invoke c ev w) as [[] w1|] eqn:Hinv; [|done].
      destruct (_call_listeners_loop invoke refs ev w1) as [called1 w2|] eqn:Hl; [|done].
      intros [= <- <-]. simpl. unfold bind. rewrite Hinv. by eapply IH.
    + apply IH.
Qed.

Lemma call_in_order_app cs1 cs2 ev w w' :
  call_in_order invoke (cs1 ++ cs2) ev w = Ok tt w' →
  ∃ w1, call_in_order invoke cs1 ev w = Ok tt w1
        ∧ call_in_order invoke cs2 ev w1 = Ok tt w'.
Proof.
  revert w. induction cs1 as [|c cs1 IH]; intros w; simpl.
  - intros H. by exists w.
  - unfold bind. destruct (invoke c ev w) as [[] w0|]; [|done]. apply IH.
Qed.

(** ** Reading *)

Lemma contents_insert_eq w a l : contents (with_heap <[a := l]> w) a = l.
Proof. unfold contents; simpl. by rewrite lookup_insert_eq. Qed.

Lemma contents_insert_ne w a b l :
  a ≠ b → contents (with_heap <[a := l]> w) b = contents w b.
Proof. intros H. unfold contents; simpl. by rewrite lookup_insert_ne. Qed.

Lemma fresh_heap (h : gmap nat (list V)) : fresh (dom h) ∉ dom h.
Proof. apply is_fresh. Qed.

Lemma fresh_heap_lookup (h : gmap nat (list V)) : h !! fresh (dom h) = None.
Proof. apply not_elem_of_dom, is_fresh. Qed.

(** [get_extensions] when a list is stored for the id: a copy of it at a
    new address; nothing else changes. *)
Lemma get_extensions_Some i s w :
  _extensions (registry w) !! i = Some s →
  get_extensions i w =
    Ok (fresh (dom (heap w))) (with_heap <[fresh (dom (heap w)) := contents w s]> w).
Proof.
  intros H. unfold get_extensions, _get_extensions, bind, gets, new_list.
  by rewrite H.
Qed.

(** [get_extensions] when nothing is stored for the id: an empty list is
    created and stored, and a copy of it is returned. *)
Lemma get_extensions_None i w :
  _extensions (registry w) !! i = None →
  let a0 := fresh (dom (heap w)) in
  let w0 := with_registry (with_extensions <[i := a0]>)
              (with_private (union {[a0]}) (with_heap <[a0 := []]> w)) in
  get_extensions i w = Ok (fresh (dom (heap w0))) (with_heap <[fresh (dom (heap w0)) := []]> w0).
Proof.
  intros H. unfold get_extensions, _get_extensions, bind, gets, new_list, modify, ret.
  rewrite H. simpl. unfold contents; simpl. by rewrite lookup_insert_eq.
Qed.

(** [remove_extension_point] and [set_extensions] on an id that is not an
    extension point. *)
Lemma _check_extension_point_unknown i w :
  _extension_points (registry w) !! i = None →
  _check_extension_point i w = Raise (UnknownExtensionPoint i) w.
Proof. intros H. unfold _check_extension_point. by rewrite H. Qed.

Lemma _check_extension_point_known i ep w :
  _extension_points (registry w) !! i = Some ep →
  _check_extension_point i w = Ok tt w.
Proof. intros H. unfold _check_extension_point. by rewrite H. Qed.

(** The world in which [set_extensions] dispatches, and the event. *)
Lemma set_extensions_known i ep v w :
  _extension_points (registry w) !! i = Some ep →
  ∃ old w1,
    _get_extensions i w = Ok old w1
    ∧ set_extensions invoke i v w =
        (let! called := _call_listeners_loop invoke (listener_refs w i)
                          {| extension_point_id := i; added := v; removed := old;
                             index := None |} in
         ret ({| extension_point_id := i; added := v; removed := old; index := None |},
              called))
          (with_private (λ p, p ∖ {[v; old]})
             (with_registry (with_extensions <[i := v]>) w1)).
Proof.
  intros H. unfold set_extensions, bind at 1.
  rewrite (_check_extension_point_known i ep w H).
  unfold bind at 1, _get_extensions.
  destruct (_extensions (registry w) !! i) as [s|] eqn:Hs.
  - by exists s, w.
  - eexists _, _. split; [reflexivity|]. done.
Qed.

(** [_get_extensions] changes the contents of no list and nothing of the
    registry but, at most, the entry of the id. *)
Lemma _get_extensions_same i w old w1 :
  _get_extensions i w = Ok old w1 →
  only_entries_changed w w1
  ∧ contents w1 old = stored w i
  ∧ <[i := old]> (_extensions (registry w)) = _extensions (registry w1)
  ∧ _extension_points (registry w1) = _extension_points (registry w).
Proof.
  unfold _get_extensions, stored, only_entries_changed.
  destruct (_extensions (registry w) !! i) as [s|] eqn:Hs.
  - intros [= <- <-]. split_and!; try done. by apply insert_id.
  - intros [= <- <-]. simpl. split_and!; try done; [|apply contents_insert_eq].
    intros a. unfold contents; simpl.
    destruct (decide (fresh (dom (heap w)) = a)) as [<-|Hne].
    + by rewrite lookup_insert_eq, fresh_heap_lookup.
    + by rewrite lookup_insert_ne.
Qed.

(** Dispatch by [set_extensions] among listeners that return normally and
    keep [I]: the world in which the first listener is called, the event,
    and the listeners notified. *)
Lemma set_extensions_dispatch i ep v w (I : World V → Prop) :
  _extension_points (registry w) !! i = Some ep →
  listeners_keep invoke (listener_refs w i) I →
  (∀ w1, _extensions (registry w1) = <[i := v]> (_extensions (registry w)) →
         _extension_points (registry w1) = _extension_points (registry w) →
         only_entries_changed w w1 → I w1) →
  ∃ ev called w1 w2,
    _extensions (registry w1) = <[i := v]> (_extensions (registry w))
    ∧ _extension_points (registry w1) = _extension_points (registry w)
    ∧ only_entries_changed w w1
    ∧ extension_point_id ev = i
    ∧ added ev = v
    ∧ contents w1 (removed ev) = stored w i
    ∧ index ev = None
    ∧ _call_listeners_loop invoke (listener_refs w i) ev w1 = Ok called w2
    ∧ call_in_order invoke called ev w1 = Ok tt w2
    ∧ I w2
    ∧ set_extensions invoke i v w = Ok (ev, called) w2.
Proof.
  intros Hreg Hkeep Hinit.
  destruct (set_extensions_known i ep v w Hreg) as (old & w1 & Hget & Hrun).
  destruct (_get_extensions_same i w old w1 Hget) as (Hsame & Hold & Hexts & Hpts).
  set (ev := {| extension_point_id := i; added := v; removed := old;
                index := None |}) in *.
  set (w2 := with_private _ _) in Hrun.
  assert (_extensions (registry w2) = <[i := v]> (_extensions (registry w))) as Hexts2.
  { subst w2; simpl. by rewrite <-Hexts, insert_insert_eq. }
  destruct (_call_listeners_loop_keep (listener_refs w i) ev I w2)
    as (called & w3 & Hloop & HI); [done|by apply Hinit|].
  exists ev, called, w2, w3. split_and!; try done.
  - by eapply _call_listeners_loop_in_order.
  - rewrite Hrun. unfold bind. by rewrite Hloop.
Qed.

(** The world in which [remove_extension_point] dispatches, and the
    event. *)
Lemma remove_extension_point_known i ep w :
  _extension_points (registry w) !! i = Some ep →
  ∃ empty old w1,
    remove_extension_point invoke i w =
      (let! called := _call_listeners_loop invoke (listener_refs w i)
                        {| extension_point_id := i; added := empty; removed := old;
                           index := Some (Index 0) |} in
       ret ({| extension_point_id := i; added := empty; removed := old;
               index := Some (Index 0) |}, called)) w1
    ∧ _extension_points (registry w1) = delete i (_extension_points (registry w))
    ∧ _extensions (registry w1) = delete i (_extensions (registry w))
    ∧ _listeners (registry w1) = _listeners (registry w)
    ∧ collected w1 = collected w
    ∧ contents w1 empty = []
    ∧ contents w1 old = stored w i
    ∧ only_entries_changed w w1.
Proof.
  intros H. unfold remove_extension_point, bind at 1.
  rewrite (_check_extension_point_known i ep w H).
  unfold bind at 1, modify at 1. unfold bind at 1, gets at 1. simpl.
  assert (∀ (h : gmap nat (list V)) a,
            default [] (<[fresh (dom h) := []]> h !! a) = default [] (h !! a)) as Hnew.
  { intros h a. destruct (decide (fresh (dom h) = a)) as [<-|Hne].
    - by rewrite lookup_insert_eq, fresh_heap_lookup.
    - by rewrite lookup_insert_ne. }
  unfold stored. destruct (_extensions (registry w) !! i) as [s|] eqn:Hs.
  - eexists _, s, _. split; [reflexivity|]. simpl.
    split_and!; try done.
    + apply contents_insert_eq.
    + unfold contents; simpl. by apply Hnew.
    + split_and!; try done. intros a. unfold contents; simpl. by apply Hnew.
  - eexists _, _, _. split; [reflexivity|]. simpl.
    split_and!; try done.
    + symmetry. by apply delete_id.
    + apply contents_insert_eq.
    + unfold contents; simpl. rewrite lookup_insert_ne.
      * by rewrite lookup_insert_eq.
      * intros Heq. apply (fresh_heap (<[fresh (dom (heap w)) := []]> (heap w))).
        rewrite Heq. set_solver.
    + split_and!; try done. intros a. unfold contents; simpl.
      by rewrite !Hnew.
Qed.

(** C9.  For an id that was never added as an extension point (it has no
    descriptor), [remove_extension_point] raises [UnknownExtensionPoint] and
    leaves the whole world as it was: descriptors, stored contributions and
    listener table.  The outcome is the same whatever the listeners would
    do, so none of them is called. *)
Theorem remove_extension_point_unknown i w :
  _extension_points (registry w) !! i = None →
  remove_extension_point invoke i w = Raise (UnknownExtensionPoint i) w.
Proof.
  intros H. unfold remove_extension_point, bind at 1.
  by rewrite (_check_extension_point_unknown i w H).
Qed.

(** C10.  [get_extensions] returns a new list object holding a copy of what
    is stored for the id.  Whatever the caller then does to that object
    (its contents become any [l]), what is stored for the id stays as it
    was, and the next [get_extensions] returns another object with the
    stored contents. *)
Theorem get_extensions_returns_fresh_copy i w :
  (∀ s, _extensions (registry w) !! i = Some s → s ∈ dom (heap w)) →
  ∃ a w1,
    get_extensions i w = Ok a w1
    ∧ (a ∉ dom (heap w))
    ∧ _extensions (registry w1) !! i ≠ Some a
    ∧ contents w1 a = stored w i
    ∧ stored w1 i = stored w i
    ∧ ∀ l, let w2 := state_of (mutate_list a l w1) in
        stored w2 i = stored w i
        ∧ ∃ b w3, get_extensions i w2 = Ok b w3 ∧ b ≠ a ∧ contents w3 b = stored w i.
Proof.
  intros Halloc. unfold stored.
  destruct (_extensions (registry w) !! i) as [s|] eqn:Hs.
  - specialize (Halloc s eq_refl).
    pose proof (fresh_heap (heap w)) as Hfresh.
    set (a := fresh (dom (heap w))) in *.
    assert (a ≠ s) as Hne by (intros ->; done).
    exists a, (with_heap <[a := contents w s]> w).
    split; [by apply get_extensions_Some|].
    split; [done|]. simpl. rewrite Hs.
    split; [congruence|].
    split; [apply contents_insert_eq|].
    split; [by apply contents_insert_ne|].
    intros l. simpl.
    split.
    { unfold contents; simpl. by rewrite !lookup_insert_ne. }
    eexists _, _. split; [by apply get_extensions_Some|].
    split.
    + intros Hb. apply (fresh_heap (heap (with_heap <[a:=l]> (with_heap <[a:=contents w s]> w)))).
      rewrite Hb. simpl. set_solver.
    + rewrite contents_insert_eq. unfold contents; simpl. by rewrite !lookup_insert_ne.
  - pose proof (get_extensions_None i w Hs) as Hget. simpl in Hget.
    set (a0 := fresh (dom (heap w))) in *.
    set (w0 := with_registry (with_extensions <[i := a0]>)
                 (with_private (union {[a0]}) (with_heap <[a0 := []]> w))) in *.
    pose proof (fresh_heap (heap w0)) as Hfresh.
    set (a := fresh (dom (heap w0))) in *.
    assert (a ≠ a0) as Hne.
    { intros Heq. apply Hfresh. rewrite Heq. subst w0. simpl. set_solver. }
    exists a, (with_heap <[a := []]> w0).
    split; [done|].
    split. { intros Hin. apply Hfresh. subst w0. simpl. set_solver. }
    simpl. rewrite lookup_insert_eq.
    split; [congruence|].
    split; [apply contents_insert_eq|].
    assert (contents w0 a0 = []) as Hc0.
    { subst w0. unfold contents; simpl. by rewrite lookup_insert_eq. }
    split. { rewrite contents_insert_ne; done. }
    intros l. simpl.
    split. { by rewrite !contents_insert_ne. }
    eexists _, _. split.
    { apply (get_extensions_Some i a0). subst w0; simpl. by rewrite lookup_insert_eq. }
    split.
    + intros Hb. apply (fresh_heap (heap (with_heap <[a:=l]> (with_heap <[a:=[]]> w0)))).
      rewrite Hb. simpl. set_solver.
    + rewrite contents_insert_eq. by rewrite !contents_insert_ne.
Qed.

Lemma deref__saferef w r c : deref w r = Some c → _saferef c = r.
Proof.
  destruct r; simpl; case_decide; intros [= <-]; done.
Qed.

(** Dispatch by [remove_extension_point] among listeners that return
    normally while no object is collected. *)
Lemma remove_extension_point_dispatch i ep w :
  _extension_points (registry w) !! i = Some ep →
  listeners_keep invoke (listener_refs w i) (λ w0, collected w0 = collected w) →
  ∃ ev w1 w2,
    _extension_points (registry w1) = delete i (_extension_points (registry w))
    ∧ _extensions (registry w1) = delete i (_extensions (registry w))
    ∧ only_entries_changed w w1
    ∧ extension_point_id ev = i
    ∧ contents w1 (added ev) = []
    ∧ contents w1 (removed ev) = stored w i
    ∧ index ev = Some (Index 0)
    ∧ call_in_order invoke (omap (deref w) (listener_refs w i)) ev w1 = Ok tt w2
    ∧ remove_extension_point invoke i w
        = Ok (ev, omap (deref w) (listener_refs w i)) w2.
Proof.
  intros Hreg Hkeep.
  destruct (remove_extension_point_known i ep w Hreg)
    as (empty & old & w1 & Hrun & Hpts & Hexts & Hls & Hcol & Hempty & Hold & Hsame).
  set (ev := {| extension_point_id := i; added := empty; removed := old;
                index := Some (Index 0) |}) in *.
  destruct (_call_listeners_loop_called (listener_refs w i) ev
              (λ w0, collected w0 = collected w) (collected w) w1)
    as (w2 & Hloop & _); [done|done|done|].
  rewrite (omap_deref_collected w w1 _ Hcol) in Hloop.
  exists ev, w1, w2.
  split_and!; try done.
  - by eapply _call_listeners_loop_in_order.
  - rewrite Hrun. unfold bind. by rewrite Hloop.
Qed.

(** C1 (amended).  For a registered id, [remove_extension_point] deletes the
    descriptor and the stored contributions (and nothing else of the
    registry) and then, before it returns, notifies every matching listener
    that is alive, those for the id and then those for every id, of one
    change event: [added] is an empty list, [removed] holds what was
    stored, and [index] is 0.  Notifying means that each of these listeners
    is called with the event, one after another from the world [w1] in
    which the entries are gone and nothing else has happened; the world
    that the last of them leaves is the world in which
    [remove_extension_point] returns. *)
Theorem remove_extension_point_notifies i ep w :
  _extension_points (registry w) !! i = Some ep →
  listeners_keep invoke (listener_refs w i) (λ w0, collected w0 = collected w) →
  ∃ ev w1 w2,
    _extension_points (registry w1) = delete i (_extension_points (registry w))
    ∧ _extensions (registry w1) = delete i (_extensions (registry w))
    ∧ only_entries_changed w w1
    ∧ extension_point_id ev = i
    ∧ contents w1 (added ev) = []
    ∧ contents w1 (removed ev) = stored w i
    ∧ index ev = Some (Index 0)
    ∧ call_in_order invoke (omap (deref w) (listener_refs w i)) ev w1 = Ok tt w2
    ∧ remove_extension_point invoke i w
        = Ok (ev, omap (deref w) (listener_refs w i)) w2.
Proof. apply remove_extension_point_dispatch. Qed.

(** C2 (amended).  During dispatch of a change event a listener whose weak
    reference has expired is skipped without any error, and dispatch does
    not touch the listener table: among listeners that leave the table
    alone, the table after dispatch is the table before it, expired entries
    included. *)
Theorem _call_listeners_skips_expired refs i added removed index w :
  listeners_keep invoke refs
    (λ w0, collected w0 = collected w
           ∧ _listeners (registry w0) = _listeners (registry w)) →
  ∃ ev w',
    _call_listeners invoke refs i added removed index w
      = Ok (ev, omap (deref w) refs) w'
    ∧ (∀ c, _saferef c ∈ refs → deref w (_saferef c) = None →
            c ∉ omap (deref w) refs)
    ∧ _listeners (registry w') = _listeners (registry w).
Proof.
  intros Hkeep. unfold _call_listeners, bind at 1, modify at 1.
  set (ev := {| extension_point_id := i; added := added; removed := removed;
                index := index |}).
  set (w1 := with_private _ w).
  destruct (_call_listeners_loop_called refs ev
              (λ w0, collected w0 = collected w
                     ∧ _listeners (registry w0) = _listeners (registry w))
              (collected w) w1)
    as (w2 & Hloop & _ & Hls); [done|by intros ? []|done|].
  rewrite (omap_deref_collected w w1) in Hloop by done.
  exists ev, w2. unfold bind. rewrite Hloop. split_and!; [done| |done].
  intros c _ Hdead Hin. apply list_elem_of_omap in Hin as (r & _ & Hr).
  pose proof (deref__saferef w r c Hr) as <-. congruence.
Qed.

(** C5.  Registration appends the new reference at the end of the list for
    its key, and both [set_extensions] and [remove_extension_point] notify
    the live listeners for the exact id, in registration order, and after
    them the live listeners for every id ([None]), in registration order:
    the listeners for the id are called one after another from the world
    [w1] in which the entry has been changed and nothing else has happened,
    and the listeners for every id from the world [w2] that the last of
    those left. *)
Theorem listeners_called_in_registration_order i ep v w :
  _extension_points (registry w) !! i = Some ep →
  listeners_keep invoke (listener_refs w i) (λ w0, collected w0 = collected w) →
  let for_id := default [] (_listeners (registry w) !! Some i) in
  let for_any := default [] (_listeners (registry w) !! None) in
  (∀ l k, ∃ w', add_extension_point_listener l k w = Ok tt w'
      ∧ _listeners (registry w') !! k
          = Some (default [] (_listeners (registry w) !! k) ++ [_saferef l])
      ∧ ∀ k', k' ≠ k → _listeners (registry w') !! k' = _listeners (registry w) !! k')
  ∧ (∃ ev w1 w2 w3,
       set_extensions invoke i v w
         = Ok (ev, omap (deref w) for_id ++ omap (deref w) for_any) w3
       ∧ _extensions (registry w1) = <[i := v]> (_extensions (registry w))
       ∧ only_entries_changed w w1
       ∧ call_in_order invoke (omap (deref w) for_id) ev w1 = Ok tt w2
       ∧ call_in_order invoke (omap (deref w) for_any) ev w2 = Ok tt w3)
  ∧ (∃ ev w1 w2 w3,
       remove_extension_point invoke i w
         = Ok (ev, omap (deref w) for_id ++ omap (deref w) for_any) w3
       ∧ _extensions (registry w1) = delete i (_extensions (registry w))
       ∧ only_entries_changed w w1
       ∧ call_in_order invoke (omap (deref w) for_id) ev w1 = Ok tt w2
       ∧ call_in_order invoke (omap (deref w) for_any) ev w2 = Ok tt w3).
Proof.
  intros Hreg Hkeep for_id for_any. split_and!.
  - intros l k. eexists. split; [reflexivity|]. simpl.
    split; [by rewrite lookup_insert_eq|].
    intros k' Hne. by rewrite lookup_insert_ne.
  - destruct (set_extensions_dispatch i ep v w (λ w0, collected w0 = collected w)
                Hreg Hkeep)
      as (ev & called & w1 & w3 & Hexts & _ & Hsame & _ & _ & _ & _
          & Hloop & Hcalls & _ & Hrun); [by intros w1 _ _ (_ & _ & ? & _)|].
    pose proof Hsame as (_ & _ & Hcol & _).
    destruct (_call_listeners_loop_called (listener_refs w i) ev
                (λ w0, collected w0 = collected w) (collected w) w1)
      as (w3' & Hloop' & _); [done|done|done|].
    rewrite (omap_deref_collected w w1) in Hloop' by done.
    assert (called = omap (deref w) for_id ++ omap (deref w) for_any) as ->.
    { rewrite Hloop in Hloop'. injection Hloop' as -> _.
      unfold listener_refs. by rewrite omap_app. }
    destruct (call_in_order_app _ _ ev w1 w3 Hcalls) as (w2 & Hfirst & Hthen).
    by exists ev, w1, w2, w3.
  - destruct (remove_extension_point_dispatch i ep w Hreg Hkeep)
      as (ev & w1 & w3 & _ & Hexts & Hsame & _ & _ & _ & _ & Hcalls & Hrun).
    unfold listener_refs in Hcalls, Hrun. rewrite omap_app in Hcalls, Hrun.
    destruct (call_in_order_app _ _ ev w1 w3 Hcalls) as (w2 & Hfirst & Hthen).
    by exists ev, w1, w2, w3.
Qed.


Lemma add_extension_point_Ok d w :
  add_extension_point d w
    = Ok tt (with_registry (with_extension_points <[id d := d]>) w).
Proof. done. Qed.

(** C8.  Remove and add again: after [add_extension_point(d)],
    [set_extensions(d.id, l)] for a new list [l] (such as [[1, 2, 3]]),
    [remove_extension_point(d.id)] and [add_extension_point(d)] once more,
    [get_extensions(d.id)] returns an empty list.  The listeners called on
    the way are taken to return normally, not to remove the extension point
    themselves and not to contribute to it when nothing is stored. *)
Theorem remove_then_add_again d l w :
  (∀ refs, listeners_keep invoke refs
             (λ w0, is_Some (_extension_points (registry w0) !! id d))) →
  (∀ refs, listeners_keep invoke refs (stored_empty (id d))) →
  ∃ w1 v w2 e3 c3 w3 e4 c4 w4 w5 a w6,
    add_extension_point d w = Ok tt w1
    ∧ new_list l w1 = Ok v w2
    ∧ set_extensions invoke (id d) v w2 = Ok (e3, c3) w3
    ∧ remove_extension_point invoke (id d) w3 = Ok (e4, c4) w4
    ∧ add_extension_point d w4 = Ok tt w5
    ∧ get_extensions (id d) w5 = Ok a w6
    ∧ contents w6 a = [].
Proof.
  intros Hpoint Hempty.
  set (w1 := with_registry (with_extension_points <[id d := d]>) w).
  set (v := fresh (dom (heap w1))).
  set (w2 := with_heap <[v := l]> w1).
  assert (_extension_points (registry w2) !! id d = Some d) as Hreg2.
  { subst w2; simpl. apply lookup_insert_eq. }
  destruct (set_extensions_known (id d) d v w2 Hreg2) as (old & w2' & Hget & Hrun).
  set (ev3 := {| extension_point_id := id d; removed := old |}) in *.
  set (w2'' := with_private _ _) in Hrun.
  destruct (_call_listeners_loop_keep (listener_refs w2 (id d)) ev3
              (λ w0, is_Some (_extension_points (registry w0) !! id d)) w2'')
    as (c3 & w3 & Hloop3 & [ep3 Hreg3]); [done| |].
  { subst w2''; simpl. unfold _get_extensions in Hget.
    destruct (_extensions (registry w2) !! id d);
      inversion Hget; subst; simpl; by rewrite lookup_insert_eq. }
  destruct (remove_extension_point_known (id d) ep3 w3 Hreg3)
    as (empty & old4 & w3' & Hrun4 & _ & Hexts4 & _).
  set (ev4 := {| extension_point_id := id d; removed := old4 |}) in *.
  destruct (_call_listeners_loop_keep (listener_refs w3 (id d)) ev4
              (stored_empty (id d)) w3')
    as (c4 & w4 & Hloop4 & Hempty4); [done| |].
  { intros a. by rewrite Hexts4, lookup_delete_eq. }
  set (w5 := with_registry (with_extension_points <[id d := d]>) w4).
  assert (stored_empty (id d) w5) as Hempty5 by done.
  assert (∃ a w6, get_extensions (id d) w5 = Ok a w6 ∧ contents w6 a = [])
    as (a & w6 & Hget6 & Hc6).
  { destruct (_extensions (registry w5) !! id d) as [s|] eqn:Hs.
    - eexists _, _. split; [by apply get_extensions_Some|].
      rewrite contents_insert_eq. unfold contents. by rewrite (Hempty5 s Hs).
    - eexists _, _. split; [by apply get_extensions_None|].
      apply contents_insert_eq. }
  exists w1, v, w2, ev3, c3, w3, ev4, c4, w4, w5, a, w6.
  split_and!; try done.
  - rewrite Hrun; unfold bind; by rewrite Hloop3.
  - rewrite Hrun4; unfold bind; by rewrite Hloop4.
Qed.

(** ** The invariant of the stored lists *)

Lemma consistent_initial : consistent (V := V) initial.
Proof. split_and!; [done|simpl; intros i a H..]; [|intros H']; by rewrite lookup_empty in *. Qed.

Lemma new_list_consistent l w :
  consistent w → consistent (with_heap <[fresh (dom (heap w)) := l]> w).
Proof.
  intros (Hp & Hs & Hu). pose proof (fresh_heap (heap w)) as Hfresh.
  split_and!; simpl.
  - rewrite dom_insert_L. set_solver.
  - intros i a H. rewrite dom_insert_L. specialize (Hs i a H). set_solver.
  - intros i a Hi Ha. destruct (Hu i a Hi Ha) as (? & ? & ?).
    split_and!; [done| |done].
    rewrite lookup_insert_ne; [done|]. intros <-. by apply Hfresh, Hs with i.
Qed.

Lemma mutate_list_consistent a l w :
  a ∉ private w → consistent w → consistent (with_heap <[a := l]> w).
Proof.
  intros Ha (Hp & Hs & Hu). split_and!; simpl.
  - rewrite dom_insert_L. set_solver.
  - intros i b H. rewrite dom_insert_L. specialize (Hs i b H). set_solver.
  - intros i b Hi Hb. destruct (Hu i b Hi Hb) as (? & ? & ?).
    split_and!; [done| |done].
    rewrite lookup_insert_ne; [done|]. by intros <-.
Qed.

Lemma _get_extensions_consistent i w :
  consistent w →
  ∃ a w', _get_extensions i w = Ok a w'
    ∧ consistent w'
    ∧ _extensions (registry w') !! i = Some a
    ∧ (∀ j, j ≠ i → _extensions (registry w') !! j = _extensions (registry w) !! j)
    ∧ _extension_points (registry w') = _extension_points (registry w)
    ∧ dom (heap w) ⊆ dom (heap w')
    ∧ private w' ∖ private w ⊆ dom (heap w') ∖ dom (heap w).
Proof.
  intros (Hp & Hs & Hu). unfold _get_extensions.
  destruct (_extensions (registry w) !! i) as [s|] eqn:Hi.
  { exists s, w. split_and!; try done. set_solver. }
  pose proof (fresh_heap (heap w)) as Hfresh.
  set (a0 := fresh (dom (heap w))) in *.
  eexists _, _. split; [reflexivity|]. simpl.
  split_and!; simpl.
  - split_and!; simpl.
    + rewrite dom_insert_L. set_solver.
    + intros j a. rewrite dom_insert_L. destruct (decide (i = j)) as [->|Hne].
      * rewrite lookup_insert_eq. intros [= <-]. set_solver.
      * rewrite lookup_insert_ne by done. intros H. specialize (Hs j a H). set_solver.
    + intros j a Hj. destruct (decide (i = j)) as [->|Hne].
      * rewrite lookup_insert_eq. intros [= <-].
        split_and!; [set_solver|by rewrite lookup_insert_eq|].
        intros k. destruct (decide (j = k)) as [->|Hk]; [done|].
        rewrite lookup_insert_ne by done. intros H. by specialize (Hs k a0 H).
      * rewrite lookup_insert_ne by done. intros Ha.
        destruct (Hu j a Hj Ha) as (Hin & Hempty & Huniq).
        assert (a ≠ a0) as Hna by (intros ->; by apply Hfresh, Hs with j).
        split_and!; [set_solver|by rewrite lookup_insert_ne|].
        intros k. destruct (decide (i = k)) as [->|Hk].
        -- rewrite lookup_insert_eq. intros [= Heq]. by destruct Hna.
        -- rewrite lookup_insert_ne by done. apply Huniq.
  - by rewrite lookup_insert_eq.
  - intros j Hne. by rewrite lookup_insert_ne.
  - done.
  - rewrite dom_insert_L. set_solver.
  - rewrite dom_insert_L. set_solver.
Qed.

Lemma get_extensions_consistent i w :
  consistent w → consistent (state_of (get_extensions i w)).
Proof.
  intros Hc. unfold get_extensions, bind at 1.
  destruct (_get_extensions_consistent i w Hc) as (a & w' & -> & Hc' & _).
  unfold bind, gets, new_list. simpl. by apply new_list_consistent.
Qed.

(** Handing out references to lists that are not stored for an id without
    descriptor. *)
Lemma expose_consistent (X : gset nat) w :
  (∀ i a, _extension_points (registry w) !! i = None →
          _extensions (registry w) !! i = Some a → a ∉ X) →
  consistent w → consistent (with_private (λ p, p ∖ X) w).
Proof.
  intros HX (Hp & Hs & Hu). split_and!; simpl; [set_solver|done|].
  intros i a Hi Ha. destruct (Hu i a Hi Ha) as (? & ? & ?).
  specialize (HX i a Hi Ha). split_and!; [set_solver|done|done].
Qed.

Lemma _call_listeners_loop_consistent refs ev w :
  listeners_consistent invoke → consistent w →
  consistent (state_of (_call_listeners_loop invoke refs ev w)).
Proof.
  intros Hl. revert w. induction refs as [|r refs IH]; intros w Hc; [done|].
  simpl. unfold bind, gets, ret in *; simpl.
  destruct (deref w r) as [c|]; [|by apply IH].
  specialize (Hl c ev w Hc). destruct (invoke c ev w) as [[] w1|e w1]; [|done].
  specialize (IH w1 Hl). by destruct (_call_listeners_loop invoke refs ev w1).
Qed.

Lemma _call_listeners_consistent refs i added removed index w :
  listeners_consistent invoke →
  (∀ j a, _extension_points (registry w) !! j = None →
          _extensions (registry w) !! j = Some a → a ∉ ({[added; removed]} : gset nat)) →
  consistent w →
  consistent (state_of (_call_listeners invoke refs i added removed index w)).
Proof.
  intros Hl HX Hc. unfold _call_listeners, bind at 1, modify at 1.
  pose proof (expose_consistent {[added; removed]} w HX Hc) as Hc1.
  set (w1 := with_private _ w) in *.
  pose proof (_call_listeners_loop_consistent refs
    {| extension_point_id := i; added := added; removed := removed; index := index |}
    w1 Hl Hc1) as Hc2.
  unfold bind, ret. by destruct (_call_listeners_loop _ _ _ _).
Qed.

Lemma set_extensions_consistent i v w :
  listeners_consistent invoke → v ∈ dom (heap w) → v ∉ private w →
  consistent w → consistent (state_of (set_extensions invoke i v w)).
Proof.
  intros Hl Hv Hvp Hc. unfold set_extensions, bind at 1, _check_extension_point.
  destruct (_extension_points (registry w) !! i) as [ep|] eqn:Hreg; [|done].
  unfold bind at 1.
  destruct (_get_extensions_consistent i w Hc)
    as (old & w1 & -> & Hc1 & Hold & Hother & Hpts & Hdom & Hpriv).
  unfold bind at 1, modify at 1. unfold bind at 1, _get_listener_refs, gets.
  assert (v ∉ private w1) as Hvp1 by set_solver.
  destruct Hc1 as (Hp & Hs & Hu).
  apply _call_listeners_consistent; [done|..]; simpl.
  - intros j a Hj. rewrite Hpts in Hj.
    assert (i ≠ j) as Hne by congruence.
    rewrite lookup_insert_ne by done. intros Ha.
    rewrite <-Hpts in Hj. destruct (Hu j a Hj Ha) as (Hin & _ & Huniq).
    assert (a ≠ old) by (intros ->; by specialize (Huniq i Hold)).
    set_solver.
  - split_and!; simpl; [done| |].
    + intros j a. destruct (decide (i = j)) as [->|Hne].
      * rewrite lookup_insert_eq. intros [= <-]. set_solver.
      * rewrite lookup_insert_ne by done. apply Hs.
    + intros j a Hj. assert (i ≠ j) as Hne by (rewrite Hpts in Hj; congruence).
      rewrite lookup_insert_ne by done. intros Ha.
      destruct (Hu j a Hj Ha) as (Hin & Hempty & Huniq).
      split_and!; [done|done|].
      intros k. destruct (decide (i = k)) as [->|Hk].
      * rewrite lookup_insert_eq. intros [= ->]. done.
      * rewrite lookup_insert_ne by done. apply Huniq.
Qed.

Lemma remove_extension_point_consistent i w :
  listeners_consistent invoke →
  consistent w → consistent (state_of (remove_extension_point invoke i w)).
Proof.
  intros Hl Hc. unfold remove_extension_point, bind at 1, _check_extension_point.
  destruct (_extension_points (registry w) !! i) as [ep|] eqn:Hreg; [|done].
  unfold bind at 1, modify at 1. unfold bind at 1, gets at 1. simpl.
  pose proof Hc as (Hp & Hs & Hu).
  destruct (_extensions (registry w) !! i) as [s|] eqn:Hi.
  - unfold bind at 1, bind at 1, modify at 1, ret at 1.
    unfold bind at 1, _get_listener_refs, gets at 1.
    unfold bind at 1, new_list at 1.
    set (w1 := with_registry _ (with_registry _ w)).
    assert (consistent w1) as Hc1.
    { split_and!; simpl; [done| |].
      - intros j a. destruct (decide (i = j)) as [->|Hne].
        + by rewrite lookup_delete_eq.
        + rewrite lookup_delete_ne by done. apply Hs.
      - intros j a. destruct (decide (i = j)) as [->|Hne].
        + by rewrite !lookup_delete_eq.
        + rewrite !lookup_delete_ne by done. intros Hj Ha.
          destruct (Hu j a Hj Ha) as (Hin & Hempty & Huniq).
          split_and!; [done|done|].
          intros k. destruct (decide (i = k)) as [->|Hk].
          * by rewrite lookup_delete_eq.
          * rewrite lookup_delete_ne by done. apply Huniq. }
    apply _call_listeners_consistent; [done| |by apply new_list_consistent].
    simpl. intros j a. destruct (decide (i = j)) as [->|Hne].
    { by rewrite !lookup_delete_eq. }
    rewrite !lookup_delete_ne by done. intros Hj Ha.
    destruct (Hu j a Hj Ha) as (Hin & Hempty & Huniq).
    assert (a ≠ s) by (intros ->; by specialize (Huniq i Hi)).
    assert (a ≠ fresh (dom (heap w))).
    { intros ->. by apply (fresh_heap (heap w)), Hs with j. }
    set_solver.
  - unfold bind at 1, new_list at 1.
    unfold bind at 1, _get_listener_refs, gets at 1.
    unfold bind at 1, new_list at 1.
    set (w1 := with_registry _ w).
    assert (consistent w1) as Hc1.
    { split_and!; simpl; [done|done|].
      intros j a. destruct (decide (i = j)) as [->|Hne].
      - by rewrite Hi.
      - rewrite lookup_delete_ne by done. apply Hu. }
    apply _call_listeners_consistent;
      [done| |by apply new_list_consistent, (new_list_consistent [] w1)].
    simpl. intros j a. destruct (decide (i = j)) as [->|Hne].
    { by rewrite Hi. }
    rewrite lookup_delete_ne by done. intros Hj Ha.
    specialize (Hs j a Ha).
    assert (a ≠ fresh (dom (heap w))).
    { intros ->. by apply (fresh_heap (heap w)). }
    assert (a ≠ fresh (dom (<[fresh (dom (heap w)) := []]> (heap w)))).
    { intros ->. apply (fresh_heap (<[fresh (dom (heap w)) := []]> (heap w))).
      by apply dom_insert_subseteq. }
    set_solver.
Qed.

Lemma perform_consistent c w :
  listeners_consistent invoke → permitted w c →
  consistent w → consistent (state_of (perform invoke c w)).
Proof.
  intros Hl Hperm Hc. destruct c as [ep|i|i|i v|l k|l|a l|o]; simpl.
  - destruct Hc as (Hp & Hs & Hu). split_and!; simpl; [done|done|].
    intros j a. destruct (decide (id ep = j)) as [<-|Hne].
    + by rewrite lookup_insert_eq.
    + rewrite lookup_insert_ne by done. apply Hu.
  - pose proof (remove_extension_point_consistent i w Hl Hc) as H.
    unfold bind, ret. by destruct (remove_extension_point invoke i w).
  - pose proof (get_extensions_consistent i w Hc) as H.
    unfold bind, ret. by destruct (get_extensions i w).
  - destruct Hperm as [Hv Hvp].
    pose proof (set_extensions_consistent i v w Hl Hv Hvp Hc) as H.
    unfold bind, ret. by destruct (set_extensions invoke i v w).
  - done.
  - by apply new_list_consistent.
  - destruct Hperm as [_ Ha]. by apply mutate_list_consistent.
  - done.
Qed.

Lemma reachable_consistent w :
  listeners_consistent invoke → reachable invoke w → consistent w.
Proof.
  intros Hl. induction 1 as [|w c _ IH Hperm].
  - apply consistent_initial.
  - by apply perform_consistent.
Qed.

(** C4.  In any world that a program reaches from a new registry, for an id
    without registered descriptor [set_extensions] raises
    [UnknownExtensionPoint] and leaves the world as it was (nothing is
    stored), while [get_extensions] returns normally, with an empty
    list. *)
Theorem unknown_extension_point_write_strict_read_permissive i v w :
  listeners_consistent invoke → reachable invoke w →
  _extension_points (registry w) !! i = None →
  set_extensions invoke i v w = Raise (UnknownExtensionPoint i) w
  ∧ ∃ a w', get_extensions i w = Ok a w' ∧ contents w' a = [].
Proof.
  intros Hl Hreach Hi. split.
  { unfold set_extensions, bind at 1.
    by rewrite (_check_extension_point_unknown i w Hi). }
  destruct (reachable_consistent w Hl Hreach) as (_ & _ & Hu).
  destruct (_extensions (registry w) !! i) as [s|] eqn:Hs.
  - destruct (Hu i s Hi Hs) as (_ & Hempty & _).
    eexists _, _. split; [by apply get_extensions_Some|].
    rewrite contents_insert_eq. unfold contents. by rewrite Hempty.
  - eexists _, _. split; [by apply get_extensions_None|].
    apply contents_insert_eq.
Qed.

End RegistryFacts.

(** ** Python lists *)

Section PyListFacts.

Context {V : Type}.
Implicit Types l : list V.

Lemma omap_lookup_seqZ l l' :
  omap (λ j, (l ++ l') !! Z.to_nat j)
       ((λ k, 0 + k * 1) <$> seqZ 0 (Z.of_nat (length l))) = l.
Proof.
  revert l'. induction l as [|x l IH] using rev_ind; intros l'; [done|].
  rewrite length_app, Nat.add_1_r, seqZ_S, fmap_app, omap_app, <-(assoc_L (++)).
  rewrite IH. f_equal. csimpl.
  replace (Z.to_nat (0 + (0 + Z.of_nat (length l)) * 1)) with (length l) by lia.
  by rewrite list_lookup_middle.
Qed.

(** [l[:]] holds the items of [l]. *)
Lemma list_slice_full l : list_slice l None None None = Some l.
Proof.
  unfold list_slice, slice_indices, range. simpl.
  repeat case_decide; try lia; f_equal.
  - rewrite Z.sub_0_r, Z.div_1_r.
    replace (Z.of_nat (length l) - 1 + 1) with (Z.of_nat (length l)) by lia.
    pose proof (omap_lookup_seqZ l []) as H'. by rewrite app_nil_r in H'.
  - destruct l; [done|]. simpl in *. lia.
Qed.

End PyListFacts.

(** ** The value of an extension point trait *)

Section ValueFacts.

Import extension_point.

Context {V : Type} `{!EqDecision V}.
Variable TraitList___setitem__ : list V → key → pyobject (V := V) → M (World V) (list V).
Variable TraitList___delitem__ : list V → key → M (World V) (list V).

Implicit Types (w : World V) (self : _ExtensionPointValue (V := V)).

(** What stays and what is read when [get_extensions] runs. *)
Lemma get_extensions_stored i w :
  ∃ a w', get_extensions i w = Ok a w'
    ∧ contents w' a = stored w i
    ∧ stored w' i = stored w i
    ∧ warnings w' = warnings w
    ∧ _extension_points (registry w') = _extension_points (registry w)
    ∧ _listeners (registry w') = _listeners (registry w).
Proof.
  unfold stored. destruct (_extensions (registry w) !! i) as [s|] eqn:Hs.
  - eexists _, _. split; [by apply get_extensions_Some|]. simpl. rewrite Hs.
    split_and!; try done; [apply contents_insert_eq|].
    destruct (decide (fresh (dom (heap w)) = s)) as [<-|Hne].
    + apply contents_insert_eq.
    + by apply contents_insert_ne.
  - eexists _, _. split; [by apply get_extensions_None|]. simpl.
    rewrite lookup_insert_eq.
    split_and!; try done; [apply contents_insert_eq|].
    rewrite contents_insert_ne.
    + unfold contents; simpl. by rewrite lookup_insert_eq.
    + intros Heq. apply (fresh_heap (<[fresh (dom (heap w)) := []]> (heap w))).
      rewrite Heq, dom_insert_L. set_solver.
Qed.

(** A bound value reads the registry. *)
Lemma current_bound self i w :
  bound self i →
  ∃ a w', get_extensions i w = Ok a w' ∧ current self w = Ok (stored w i) w'.
Proof.
  intros (_ & object & name & ep & Hobj & Hname & Hreg & Htrait & Hid).
  destruct (get_extensions_stored i w) as (a & w' & Hget & Hc & _).
  exists a, w'. split; [done|].
  unfold current, reference, bind at 1. rewrite Hobj, Hname. unfold ret at 1.
  unfold bind at 1, _get_extensions. rewrite Htrait.
  unfold bind at 1, _get_extension_registry. rewrite Hreg. unfold ret at 1.
  rewrite Hid, Hget. unfold gets. by rewrite Hc.
Qed.

(** The value that [_update_cache] builds is bound to the id of the trait
    and starts with the extensions of that id. *)
Lemma _update_cache_bound object name w new w' :
  _update_cache object name w = Ok new w' →
  ∃ ep, traits object !! name = Some ep
        ∧ bound new (id ep)
        ∧ data new = stored w (id ep).
Proof.
  unfold _update_cache, bind at 1, _get_extensions.
  destruct (traits object !! name) as [ep|] eqn:Htrait; [|done].
  unfold bind at 1, _get_extension_registry.
  destruct (extension_registry object) as [[]|] eqn:Hreg; [|done].
  unfold ret at 1.
  destruct (get_extensions_stored (id ep) w) as (a & w1 & -> & Hc & _).
  unfold bind, __init__, bind, gets, ret. intros [= <- <-].
  exists ep. split; [done|]. split; [|done].
  split; [done|]. by exists object, name, ep.
Qed.

Lemma __len___bound self i w :
  bound self i →
  ∃ a w', get_extensions i w = Ok a w'
    ∧ __len__ self w = Ok (length (stored w i)) w'.
Proof.
  intros Hb. destruct (current_bound self i w Hb) as (a & w' & Hget & Hcur).
  exists a, w'. split; [done|]. destruct Hb as [Hint _].
  unfold __len__. rewrite Hint. unfold bind. by rewrite Hcur.
Qed.

Lemma __getitem___bound self i key w :
  bound self i →
  ∃ a w', get_extensions i w = Ok a w'
    ∧ __getitem__ self key w = list___getitem__ (stored w i) key w'.
Proof.
  intros Hb. destruct (current_bound self i w Hb) as (a & w' & Hget & Hcur).
  exists a, w'. split; [done|]. destruct Hb as [Hint _].
  unfold __getitem__. rewrite Hint. unfold bind. by rewrite Hcur.
Qed.

Lemma __eq___bound self i other w :
  bound self i →
  ∃ a w', get_extensions i w = Ok a w'
    ∧ __eq__ self other w = list___eq__ (stored w i) other w'.
Proof.
  intros Hb. destruct (current_bound self i w Hb) as (a & w' & Hget & Hcur).
  exists a, w'. split; [done|]. destruct Hb as [Hint _].
  unfold __eq__. rewrite Hint. unfold bind. by rewrite Hcur.
Qed.

(** C7.  For a cached value outside the internal path, [==], [len] and
    indexing answer from what the registry currently holds for the id: each
    is the corresponding [list] operation on the extensions that
    [get_extensions] reports, in the world that this call leaves.  The
    answers do not depend on [data], the list that the value itself
    holds. *)
Theorem accessors_read_the_registry self i w :
  bound self i →
  ∃ a w', get_extensions i w = Ok a w'
    ∧ contents w' a = stored w i
    ∧ (∀ other, __eq__ self other w = list___eq__ (stored w i) other w')
    ∧ __len__ self w = Ok (length (stored w i)) w'
    ∧ (∀ key, __getitem__ self key w = list___getitem__ (stored w i) key w')
    ∧ (∀ k, __getitem__ self (Index k) w =
            match list_index (stored w i) k with
            | Some x => Ok (Item x) w'
            | None => Raise IndexError w'
            end)
    ∧ ∀ l, __eq__ (set_data self l) = __eq__ self
           ∧ __len__ (set_data self l) = __len__ self
           ∧ __getitem__ (set_data self l) = __getitem__ self.
Proof.
  intros Hb. destruct (get_extensions_stored i w) as (a & w' & Hget & Hc & _).
  exists a, w'. split_and!; try done.
  - intros other. destruct (__eq___bound self i other w Hb) as (a' & w'' & Hget' & ->).
    congruence.
  - destruct (__len___bound self i w Hb) as (a' & w'' & Hget' & ->). congruence.
  - intros key. destruct (__getitem___bound self i key w Hb) as (a' & w'' & Hget' & ->).
    congruence.
  - intros k. destruct (__getitem___bound self i (Index k) w Hb) as (a' & w'' & Hget' & ->).
    assert (w'' = w') as -> by congruence.
    simpl. by destruct (list_index (stored w i) k).
  - intros l. destruct Hb as [Hint _].
    unfold __eq__, __len__, __getitem__, set_data; simpl. by rewrite Hint.
Qed.

Lemma warn_Ok w :
  warn w = Ok tt (with_warnings
                    (λ ws, ws ++ ["Extension point cannot be mutated directly."]) w).
Proof. done. Qed.

Lemma stored_with_warnings f w i : stored (with_warnings f w) i = stored w i.
Proof. done. Qed.

(** [self[:]] on a bound value: a new list with the current extensions. *)
Lemma full_slice_bound self i w :
  bound self i →
  ∃ b w', __getitem__ self (Slice None None None) w = Ok (ListRef b) w'
    ∧ contents w' b = stored w i
    ∧ stored w' i = stored w i
    ∧ warnings w' = warnings w
    ∧ _extension_points (registry w') = _extension_points (registry w)
    ∧ _listeners (registry w') = _listeners (registry w).
Proof.
  intros Hb. destruct (__getitem___bound self i (Slice None None None) w Hb)
    as (a & w1 & Hget & ->).
  destruct (get_extensions_stored i w) as (a' & w1' & Hget' & Hc & Hst & Hw & Hp & Hl).
  assert (w1' = w1) as -> by congruence.
  unfold list___getitem__. rewrite list_slice_full.
  eexists _, _. split; [reflexivity|].
  split_and!; try done; [apply contents_insert_eq|].
  rewrite <-Hst. unfold stored; simpl.
  destruct (_extensions (registry w1) !! i) as [s|]; [|done].
  destruct (decide (fresh (dom (heap w1)) = s)) as [<-|Hne].
  - apply contents_insert_eq.
  - by apply contents_insert_ne.
Qed.

Lemma value_of___len___bound self i w :
  bound self i → value_of (__len__ self w) = inl (length (stored w i)).
Proof.
  intros Hb. by destruct (__len___bound self i w Hb) as (a & w' & _ & ->).
Qed.

Lemma value_of___getitem___bound self i k w :
  bound self i →
  value_of (__getitem__ self (Index k) w) =
    match list_index (stored w i) k with
    | Some x => inl (Item x)
    | None => inr IndexError
    end.
Proof.
  intros Hb. destruct (__getitem___bound self i (Index k) w Hb) as (a & w' & _ & ->).
  simpl. by destruct (list_index (stored w i) k).
Qed.

(** C3.  A direct mutation attempt on a cached value outside the internal
    path (append, insert, remove, item or slice assignment, [+=], [*=],
    clear, pop, extend, item or slice deletion) raises nothing, issues the
    warning, and leaves the value object as it was; what the registry holds
    for the extension point is unchanged, and so is what the value reads as
    through [len] and indexing.  [+=] and [*=] return a new list with the
    current extensions. *)
Theorem direct_mutation_rejected m self i w :
  bound self i →
  ∃ result w',
    attempt TraitList___setitem__ TraitList___delitem__ m self w
      = Ok (self, result) w'
    ∧ warnings w' = warnings w ++ ["Extension point cannot be mutated directly."]
    ∧ stored w' i = stored w i
    ∧ _extension_points (registry w') = _extension_points (registry w)
    ∧ value_of (__len__ self w') = value_of (__len__ self w)
    ∧ (∀ k, value_of (__getitem__ self (Index k) w')
            = value_of (__getitem__ self (Index k) w))
    ∧ (∀ b, result = Some (ListRef b) → contents w' b = stored w i).
Proof.
  intros Hb.
  assert (∃ result w',
    attempt TraitList___setitem__ TraitList___delitem__ m self w
      = Ok (self, result) w'
    ∧ warnings w' = warnings w ++ ["Extension point cannot be mutated directly."]
    ∧ stored w' i = stored w i
    ∧ _extension_points (registry w') = _extension_points (registry w)
    ∧ (∀ b, result = Some (ListRef b) → contents w' b = stored w i))
    as (result & w' & Hrun & Hwarn & Hst & Hpts & Hcopy).
  { pose proof Hb as [Hint _].
    set (w1 := with_warnings
                 (λ ws, ws ++ ["Extension point cannot be mutated directly."]) w).
    assert (∃ b w', __getitem__ self (Slice None None None) w1 = Ok (ListRef b) w'
              ∧ contents w' b = stored w i ∧ stored w' i = stored w i
              ∧ warnings w' = warnings w1
              ∧ _extension_points (registry w') = _extension_points (registry w))
      as (b & w2 & Hslice & Hb2 & Hst2 & Hw2 & Hp2).
    { destruct (full_slice_bound self i w1 Hb) as (b & w2 & ? & ? & ? & ? & ? & _).
      by exists b, w2. }
    destruct m; simpl;
      try (exists None, w1; by split_and!).
    - exists None, w1. unfold __setitem__. rewrite Hint. by split_and!.
    - exists (Some (ListRef b)), w2. unfold __iadd__, bind at 1, bind at 1.
      rewrite warn_Ok. fold w1. unfold bind at 1. rewrite Hslice.
      split_and!; try done. by intros ? [= <-].
    - exists (Some (ListRef b)), w2. unfold __imul__, bind at 1, bind at 1.
      rewrite warn_Ok. fold w1. unfold bind at 1. rewrite Hslice.
      split_and!; try done. by intros ? [= <-].
    - exists None, w1. unfold __delitem__. rewrite Hint. by split_and!. }
  exists result, w'. split_and!; try done.
  - by rewrite !(value_of___len___bound self i), Hst.
  - intros k. by rewrite !(value_of___getitem___bound self i), Hst.
Qed.

End ValueFacts.

(** ** The concrete program *)

Local Ltac by_computation := apply (bool_decide_unpack _); vm_compute; exact I.

(** What [get_extensions] leaves alone. *)
Lemma get_extensions_frame {V : Type} j (w : World V) a w' :
  get_extensions j w = Ok a w' →
  collected w' = collected w
  ∧ _listeners (registry w') = _listeners (registry w)
  ∧ _extension_points (registry w') = _extension_points (registry w)
  ∧ (∀ i v, _extensions (registry w) !! i = Some v →
            _extensions (registry w') !! i = Some v)
  ∧ (∀ i, stored_empty i w → stored_empty i w').
Proof.
  destruct (_extensions (registry w) !! j) as [s|] eqn:Hs.
  - rewrite (get_extensions_Some j s w Hs). intros [= <- <-]. simpl.
    split_and!; try done.
    intros i He b Hb. specialize (He b Hb). simpl. rewrite lookup_insert_ne; [done|].
    intros <-. by rewrite fresh_heap_lookup in He.
  - rewrite (get_extensions_None j w Hs). intros [= <- <-]. simpl.
    pose proof (fresh_heap_lookup (heap w)) as Hf0.
    pose proof (fresh_heap_lookup (<[fresh (dom (heap w)) := []]> (heap w))) as Hf1.
    set (a0 := fresh (dom (heap w))) in *.
    set (a1 := fresh (dom (<[a0 := []]> (heap w)))) in *.
    assert (a1 ≠ a0) as Hne.
    { intros Heq. rewrite Heq in Hf1. by rewrite lookup_insert_eq in Hf1. }
    split_and!; try done.
    + intros i v Hi. rewrite lookup_insert_ne; [done|]. congruence.
    + intros i He b. simpl. destruct (decide (j = i)) as [->|Hji].
      * rewrite lookup_insert_eq. intros [= <-].
        by rewrite lookup_insert_ne, lookup_insert_eq.
      * rewrite lookup_insert_ne by done. intros Hb. specialize (He b Hb).
        assert (a0 ≠ b) as Hab.
        { intros <-. by rewrite Hf0 in He. }
        rewrite !lookup_insert_ne; [done|done|].
        intros <-. rewrite lookup_insert_ne in Hf1 by done. by rewrite Hf1 in He.
Qed.

Lemma get_extensions_total {V : Type} j (w : World V) :
  ∃ a w', get_extensions j w = Ok a w'.
Proof.
  destruct (_extensions (registry w) !! j) as [s|] eqn:Hs.
  - eexists _, _. by apply get_extensions_Some.
  - eexists _, _. by apply get_extensions_None.
Qed.

(** The reading listener keeps whatever [get_extensions] keeps. *)
Lemma reader_keep refs (I : World Z → Prop) :
  (∀ j w a w', get_extensions j w = Ok a w' → I w → I w') →
  listeners_keep reader refs I.
Proof.
  intros H r c ev w _ _ HI.
  destruct (get_extensions_total (extension_point_id ev) w) as (a & w' & Hget).
  exists w'. unfold reader, bind. rewrite Hget. split; [done|]. by eapply H.
Qed.

Lemma reader_keeps_collected refs C :
  listeners_keep reader refs (λ w, collected w = C).
Proof.
  apply reader_keep. intros j w a w' Hget <-.
  by destruct (get_extensions_frame j w a w' Hget) as (? & _).
Qed.

Lemma reader_keeps_listeners refs C L :
  listeners_keep reader refs
    (λ w, collected w = C ∧ _listeners (registry w) = L).
Proof.
  apply reader_keep. intros j w a w' Hget [<- <-].
  by destruct (get_extensions_frame j w a w' Hget) as (? & ? & _).
Qed.

Lemma reader_keeps_entry refs i v :
  listeners_keep reader refs (λ w, _extensions (registry w) !! i = Some v).
Proof.
  apply reader_keep. intros j w a w' Hget Hi.
  destruct (get_extensions_frame j w a w' Hget) as (_ & _ & _ & H & _). by apply H.
Qed.



Lemma reader_keeps_point refs i :
  listeners_keep reader refs (λ w, is_Some (_extension_points (registry w) !! i)).
Proof.
  apply reader_keep. intros j w a w' Hget Hi.
  destruct (get_extensions_frame j w a w' Hget) as (_ & _ & H & _). by rewrite H.
Qed.

Lemma reader_keeps_stored_empty refs i :
  listeners_keep reader refs (stored_empty i).
Proof.
  apply reader_keep. intros j w a w' Hget Hi.
  destruct (get_extensions_frame j w a w' Hget) as (_ & _ & _ & _ & H). by apply H.
Qed.

Lemma reader_consistent : listeners_consistent reader.
Proof.
  intros c ev w Hc. unfold reader, bind.
  pose proof (get_extensions_consistent (extension_point_id ev) w Hc) as H.
  by destruct (get_extensions _ w).
Qed.

Lemma reachable_listening : reachable reader listening.
Proof.
  apply (reachable_step reader _ (AddExtensionPointListener B None)); [|exact I].
  apply (reachable_step reader _ (AddExtensionPointListener A (Some "x"))); [|exact I].
  apply (reachable_step reader _ (AddExtensionPoint x_point)); [|exact I].
  apply reachable_initial.
Qed.

Lemma reachable_contributed : reachable reader contributed.
Proof.
  apply (reachable_step reader (after [NewList [1; 2; 3]] listening)
           (SetExtensions "x" 0%nat)).
  - apply (reachable_step reader listening (NewList [1; 2; 3])); [|exact I].
    apply reachable_listening.
  - split; by_computation.
Qed.

Lemma reachable_removed_again : reachable reader removed_again.
Proof.
  apply (reachable_step reader contributed (RemoveExtensionPoint "x")); [|exact I].
  apply reachable_contributed.
Qed.

Lemma cached_by__update_cache :
  ∃ w', extension_point._update_cache owner "exts" contributed = Ok cached w'.
Proof. eexists. vm_compute. reflexivity. Qed.

Lemma bound_cached : extension_point.bound cached "x".
Proof.
  split; [reflexivity|]. exists owner, "exts", x_point.
  split_and!; reflexivity.
Qed.

(** The claim of C1 that the event of a removal has [index] [None] fails:
    removing ["x"], which holds [[1, 2, 3]], calls [A] and [B] with an event
    whose [index] is 0. *)
Lemma remove_extension_point_index_is_not_None :
  ∃ ev called w',
    remove_extension_point reader "x" contributed = Ok (ev, called) w'
    ∧ called = [A; B]
    ∧ contents w' (added ev) = []
    ∧ contents w' (removed ev) = [1; 2; 3]
    ∧ index ev = Some (Index 0)
    ∧ index ev ≠ None.
Proof.
  eexists _, _, _. split; [vm_compute; reflexivity|].
  split_and!; [reflexivity|vm_compute; reflexivity..|reflexivity|discriminate].
Qed.

Lemma remove_extension_point_notifies_witness :
  _extension_points (registry contributed) !! "x" = Some x_point
  ∧ listeners_keep reader (listener_refs contributed "x")
      (λ w0, collected w0 = collected contributed)
  ∧ omap (deref contributed) (listener_refs contributed "x") = [A; B]
  ∧ ∃ ev w1 w2,
      _extension_points (registry w1)
        = delete "x" (_extension_points (registry contributed))
      ∧ _extensions (registry w1) = delete "x" (_extensions (registry contributed))
      ∧ only_entries_changed contributed w1
      ∧ extension_point_id ev = "x"
      ∧ contents w1 (added ev) = []
      ∧ contents w1 (removed ev) = stored contributed "x"
      ∧ index ev = Some (Index 0)
      ∧ call_in_order reader
          (omap (deref contributed) (listener_refs contributed "x")) ev w1
        = Ok tt w2
      ∧ remove_extension_point reader "x" contributed
          = Ok (ev, omap (deref contributed) (listener_refs contributed "x")) w2.
Proof.
  split; [vm_compute; reflexivity|].
  split; [apply reader_keeps_collected|].
  split; [vm_compute; reflexivity|].
  apply (remove_extension_point_notifies reader "x" x_point contributed).
  - vm_compute; reflexivity.
  - apply reader_keeps_collected.
Defined.

(** The claim of C2 that dispatch prunes an expired entry fails: the only
    listener of ["x"] has expired; [set_extensions] and
    [remove_extension_point] call nobody and return normally, and the
    expired reference is still in the listener table afterwards. *)
Lemma expired_listener_is_not_pruned :
  deref expired (WeakRef 4) = None
  ∧ _listeners (registry expired) !! Some "x" = Some [WeakRef 4]
  ∧ (∃ ev w',
      set_extensions reader "x" 0%nat expired = Ok (ev, []) w'
      ∧ _listeners (registry w') !! Some "x" = Some [WeakRef 4])
  ∧ (∃ ev w',
      remove_extension_point reader "x" expired = Ok (ev, []) w'
      ∧ _listeners (registry w') !! Some "x" = Some [WeakRef 4]).
Proof.
  split; [vm_compute; reflexivity|].
  split; [vm_compute; reflexivity|].
  split; eexists _, _; (split; [vm_compute; reflexivity|vm_compute; reflexivity]).
Qed.

Lemma _call_listeners_skips_expired_witness :
  listeners_keep reader [WeakRef 4; WeakRef 3]
    (λ w0, collected w0 = collected expired
           ∧ _listeners (registry w0) = _listeners (registry expired))
  ∧ ∃ ev w',
      _call_listeners reader [WeakRef 4; WeakRef 3] "x" 0%nat 0%nat None expired
        = Ok (ev, omap (deref expired) [WeakRef 4; WeakRef 3]) w'
      ∧ (∀ c, _saferef c ∈ [WeakRef 4; WeakRef 3] →
              deref expired (_saferef c) = None →
              c ∉ omap (deref expired) [WeakRef 4; WeakRef 3])
      ∧ _listeners (registry w') = _listeners (registry expired).
Proof.
  split; [apply reader_keeps_listeners|].
  apply (_call_listeners_skips_expired reader [WeakRef 4; WeakRef 3] "x"
           0%nat 0%nat None expired).
  apply reader_keeps_listeners.
Defined.

Lemma direct_mutation_rejected_witness :
  extension_point.bound cached "x"
  ∧ ∃ result w',
      extension_point.attempt plain___setitem__ plain___delitem__
        (extension_point.Append 3) cached contributed = Ok (cached, result) w'
      ∧ warnings w' = warnings contributed
                        ++ ["Extension point cannot be mutated directly."]
      ∧ stored w' "x" = stored contributed "x"
      ∧ _extension_points (registry w') = _extension_points (registry contributed)
      ∧ value_of (extension_point.__len__ cached w')
          = value_of (extension_point.__len__ cached contributed)
      ∧ (∀ k, value_of (extension_point.__getitem__ cached (Index k) w')
              = value_of (extension_point.__getitem__ cached (Index k) contributed))
      ∧ (∀ b, result = Some (extension_point.ListRef b) →
              contents w' b = stored contributed "x").
Proof.
  split; [apply bound_cached|].
  apply (direct_mutation_rejected plain___setitem__ plain___delitem__
           (extension_point.Append 3) cached "x" contributed).
  apply bound_cached.
Defined.

Lemma unknown_extension_point_write_strict_read_permissive_witness :
  listeners_consistent reader
  ∧ reachable reader removed_again
  ∧ _extension_points (registry removed_again) !! "x" = None
  ∧ set_extensions reader "x" 0%nat removed_again
      = Raise (UnknownExtensionPoint "x") removed_again
  ∧ ∃ a w', get_extensions "x" removed_again = Ok a w' ∧ contents w' a = [].
Proof.
  split; [apply reader_consistent|].
  split; [apply reachable_removed_again|].
  split; [vm_compute; reflexivity|].
  apply (unknown_extension_point_write_strict_read_permissive reader "x" 0%nat
           removed_again).
  - apply reader_consistent.
  - apply reachable_removed_again.
  - vm_compute; reflexivity.
Defined.

(** The scenario of C5: with [A] listening to ["x"] and [B] to every id,
    [set_extensions("x", [1])] calls [A], then [B]. *)
Lemma listeners_called_in_registration_order_witness :
  let w := after [NewList [1]] listening in
  _extension_points (registry w) !! "x" = Some x_point
  ∧ listeners_keep reader (listener_refs w "x") (λ w0, collected w0 = collected w)
  ∧ omap (deref w) (default [] (_listeners (registry w) !! Some "x"))
      ++ omap (deref w) (default [] (_listeners (registry w) !! None)) = [A; B]
  ∧ (∀ l k, ∃ w', add_extension_point_listener l k w = Ok tt w'
       ∧ _listeners (registry w') !! k
           = Some (default [] (_listeners (registry w) !! k) ++ [_saferef l])
       ∧ ∀ k', k' ≠ k → _listeners (registry w') !! k' = _listeners (registry w) !! k')
  ∧ (∃ ev w1 w2 w3,
       set_extensions reader "x" 0%nat w
         = Ok (ev, omap (deref w) (default [] (_listeners (registry w) !! Some "x"))
                    ++ omap (deref w) (default [] (_listeners (registry w) !! None)))
              w3
       ∧ _extensions (registry w1) = <["x" := 0%nat]> (_extensions (registry w))
       ∧ only_entries_changed w w1
       ∧ call_in_order reader
           (omap (deref w) (default [] (_listeners (registry w) !! Some "x"))) ev w1
         = Ok tt w2
       ∧ call_in_order reader
           (omap (deref w) (default [] (_listeners (registry w) !! None))) ev w2
         = Ok tt w3)
  ∧ (∃ ev w1 w2 w3,
       remove_extension_point reader "x" w
         = Ok (ev, omap (deref w) (default [] (_listeners (registry w) !! Some "x"))
                    ++ omap (deref w) (default [] (_listeners (registry w) !! None)))
              w3
       ∧ _extensions (registry w1) = delete "x" (_extensions (registry w))
       ∧ only_entries_changed w w1
       ∧ call_in_order reader
           (omap (deref w) (default [] (_listeners (registry w) !! Some "x"))) ev w1
         = Ok tt w2
       ∧ call_in_order reader
           (omap (deref w) (default [] (_listeners (registry w) !! None))) ev w2
         = Ok tt w3).
Proof.
  intros w.
  split; [vm_compute; reflexivity|].
  split; [apply reader_keeps_collected|].
  split; [vm_compute; reflexivity|].
  apply (listeners_called_in_registration_order reader "x" x_point 0%nat w).
  - vm_compute; reflexivity.
  - apply reader_keeps_collected.
Defined.


Lemma accessors_read_the_registry_witness :
  extension_point.bound cached "x"
  ∧ ∃ a w', get_extensions "x" contributed = Ok a w'
      ∧ contents w' a = stored contributed "x"
      ∧ (∀ other, extension_point.__eq__ cached other contributed
                  = extension_point.list___eq__ (stored contributed "x") other w')
      ∧ extension_point.__len__ cached contributed
          = Ok (length (stored contributed "x")) w'
      ∧ (∀ key, extension_point.__getitem__ cached key contributed
                = extension_point.list___getitem__ (stored contributed "x") key w')
      ∧ (∀ k, extension_point.__getitem__ cached (Index k) contributed =
              match list_index (stored contributed "x") k with
              | Some x => Ok (extension_point.Item x) w'
              | None => Raise IndexError w'
              end)
      ∧ ∀ l, extension_point.__eq__ (extension_point.set_data cached l)
               = extension_point.__eq__ cached
             ∧ extension_point.__len__ (extension_point.set_data cached l)
               = extension_point.__len__ cached
             ∧ extension_point.__getitem__ (extension_point.set_data cached l)
               = extension_point.__getitem__ cached.
Proof.
  split; [apply bound_cached|].
  apply (accessors_read_the_registry cached "x" contributed).
  apply bound_cached.
Defined.

Lemma remove_then_add_again_witness :
  (∀ refs, listeners_keep reader refs
             (λ w0, is_Some (_extension_points (registry w0) !! id x_point)))
  ∧ (∀ refs, listeners_keep reader refs (stored_empty (id x_point)))
  ∧ ∃ w1 v w2 e3 c3 w3 e4 c4 w4 w5 a w6,
      add_extension_point x_point listening = Ok tt w1
      ∧ new_list [1; 2; 3] w1 = Ok v w2
      ∧ set_extensions reader (id x_point) v w2 = Ok (e3, c3) w3
      ∧ remove_extension_point reader (id x_point) w3 = Ok (e4, c4) w4
      ∧ add_extension_point x_point w4 = Ok tt w5
      ∧ get_extensions (id x_point) w5 = Ok a w6
      ∧ contents w6 a = [].
Proof.
  split; [intros refs; apply reader_keeps_point|].
  split; [intros refs; apply reader_keeps_stored_empty|].
  apply (remove_then_add_again reader x_point [1; 2; 3] listening).
  - intros refs. apply reader_keeps_point.
  - intros refs. apply reader_keeps_stored_empty.
Defined.

Lemma remove_extension_point_unknown_witness :
  _extension_points (registry contributed) !! "y" = None
  ∧ remove_extension_point reader "y" contributed
      = Raise (UnknownExtensionPoint "y") contributed.
Proof.
  split; [vm_compute; reflexivity|].
  apply (remove_extension_point_unknown reader "y" contributed).
  vm_compute; reflexivity.
Defined.

Lemma get_extensions_returns_fresh_copy_witness :
  (∀ s, _extensions (registry contributed) !! "x" = Some s →
        s ∈ dom (heap contributed))
  ∧ ∃ a w1,
      get_extensions "x" contributed = Ok a w1
      ∧ (a ∉ dom (heap contributed))
      ∧ _extensions (registry w1) !! "x" ≠ Some a
      ∧ contents w1 a = stored contributed "x"
      ∧ stored w1 "x" = stored contributed "x"
      ∧ ∀ l, let w2 := state_of (mutate_list a l w1) in
          stored w2 "x" = stored contributed "x"
          ∧ ∃ b w3, get_extensions "x" w2 = Ok b w3 ∧ b ≠ a
                    ∧ contents w3 b = stored contributed "x".
Proof.
  assert (∀ s, _extensions (registry contributed) !! "x" = Some s →
               s ∈ dom (heap contributed)) as Halloc.
  { intros s Hs. vm_compute in Hs. injection Hs as <-.
    apply (bool_decide_unpack _). vm_compute. exact I. }
  split; [exact Halloc|].
  apply (get_extensions_returns_fresh_copy "x" contributed Halloc).
Defined.

(** * More of the registry *)

Section MoreRegistryFacts.

Context {V : Type} `{!EqDecision V}.
Variable invoke : callable → ExtensionPointChangedEvent → M (World V) unit.

Implicit Types (w : World V) (refs : list weak) (ev : ExtensionPointChangedEvent).

(** ** Dispatch, whatever the listeners do *)


(** A listener that raises ends the loop: its exception is the outcome. *)
Lemma _call_listeners_loop_raise pre r rest c e ev w called w1 w' :
  _call_listeners_loop invoke pre ev w = Ok called w1 →
  deref w1 r = Some c →
  invoke c ev w1 = Raise e w' →
  _call_listeners_loop invoke (pre ++ r :: rest) ev w = Raise e w'.
Proof.
  intros Hpre Hd Hr. rewrite _call_listeners_loop_app. unfold bind at 1.
  rewrite Hpre. unfold bind at 1. simpl. unfold bind, gets. by rewrite Hd, Hr.
Qed.

Lemma _get_extensions_frame i w old w1 :
  _get_extensions i w = Ok old w1 →
  collected w1 = collected w
  ∧ _listeners (registry w1) = _listeners (registry w)
  ∧ _extension_points (registry w1) = _extension_points (registry w)
  ∧ contents w1 old = stored w i.
Proof.
  unfold _get_extensions, stored.
  destruct (_extensions (registry w) !! i) as [s|].
  - by intros [= <- <-].
  - intros [= <- <-]. split_and!; try done. apply contents_insert_eq.
Qed.

(** X1.  For a registered id, [set_extensions] first stores the new list,
    changing nothing else of the registry and the contents of no list, and
    then notifies every matching listener that is alive of one event:
    [added] is the list object passed in, [removed] the list object that
    was stored before (holding the previous extensions), [index] is
    [None].  Notifying means that each of these listeners is called with
    the event, one after another from the world [w1] in which the list is
    stored and nothing else has happened; the world that the last of them
    leaves is the world in which [set_extensions] returns. *)
Theorem set_extensions_notifies i ep v w :
  _extension_points (registry w) !! i = Some ep →
  listeners_keep invoke (listener_refs w i) (λ w0, collected w0 = collected w) →
  ∃ ev w1 w2,
    _extensions (registry w1) = <[i := v]> (_extensions (registry w))
    ∧ _extension_points (registry w1) = _extension_points (registry w)
    ∧ only_entries_changed w w1
    ∧ extension_point_id ev = i
    ∧ added ev = v
    ∧ contents w1 (removed ev) = stored w i
    ∧ index ev = None
    ∧ call_in_order invoke (omap (deref w) (listener_refs w i)) ev w1 = Ok tt w2
    ∧ set_extensions invoke i v w
        = Ok (ev, omap (deref w) (listener_refs w i)) w2.
Proof.
  intros Hreg Hkeep.
  destruct (set_extensions_dispatch invoke i ep v w
              (λ w0, collected w0 = collected w) Hreg Hkeep)
    as (ev & called & w1 & w2 & Hexts & Hpts & Hsame & Hid & Hadded
        & Hold & Hindex & Hloop & Hcalls & _ & Hrun);
    [by intros w1 _ _ (_ & _ & ? & _)|].
  pose proof Hsame as (_ & _ & Hcol & _).
  destruct (_call_listeners_loop_called invoke (listener_refs w i) ev
              (λ w0, collected w0 = collected w) (collected w) w1)
    as (w2' & Hloop' & _); [done|done|done|].
  rewrite (omap_deref_collected w w1) in Hloop' by done.
  assert (called = omap (deref w) (listener_refs w i)) as ->.
  { rewrite Hloop in Hloop'. by injection Hloop' as -> _. }
  by exists ev, w1, w2.
Qed.

(** X2.  The registry stores the list object that [set_extensions] is
    given, not a copy: when the caller later mutates that list in place,
    [get_extensions] returns the mutated contents. *)
Theorem set_extensions_stores_the_list_itself i ep v w :
  _extension_points (registry w) !! i = Some ep →
  listeners_keep invoke (listener_refs w i)
    (λ w0, _extensions (registry w0) !! i = Some v) →
  ∃ ev called w1,
    set_extensions invoke i v w = Ok (ev, called) w1
    ∧ _extensions (registry w1) !! i = Some v
    ∧ ∀ l, ∃ a w2,
        get_extensions i (state_of (mutate_list v l w1)) = Ok a w2
        ∧ contents w2 a = l.
Proof.
  intros Hreg Hkeep.
  destruct (set_extensions_known invoke i ep v w Hreg) as (old & w1 & _ & Hrun).
  set (ev := {| extension_point_id := i; added := v; removed := old;
                index := None |}) in *.
  set (w2 := with_private _ _) in Hrun.
  destruct (_call_listeners_loop_keep invoke (listener_refs w i) ev
              (λ w0, _extensions (registry w0) !! i = Some v) w2)
    as (called & w3 & Hloop & Hv); [done|by apply lookup_insert_eq|].
  exists ev, called, w3.
  split; [rewrite Hrun; unfold bind; by rewrite Hloop|].
  split; [done|]. intros l. eexists _, _.
  split; [by apply (get_extensions_Some i v)|].
  rewrite contents_insert_eq. apply contents_insert_eq.
Qed.


(** X4.  A listener that raises ends [set_extensions], whether it is the
    first to be called or comes after others that returned: the listeners
    before it are called in order, the exception is the outcome, in the
    world that the raising listener left, and the listeners after it are
    not called.  The new list is stored before any listener runs and is not
    taken back.  The listeners before the one that raises are taken to
    return normally while no object is collected. *)
Theorem listener_exception_propagates i ep v w pre r rest c :
  _extension_points (registry w) !! i = Some ep →
  listener_refs w i = pre ++ r :: rest →
  listeners_keep invoke pre (λ w0, collected w0 = collected w) →
  deref w r = Some c →
  ∃ ev w1 w2,
    _extensions (registry w1) !! i = Some v
    ∧ only_entries_changed w w1
    ∧ added ev = v
    ∧ index ev = None
    ∧ call_in_order invoke (omap (deref w) pre) ev w1 = Ok tt w2
    ∧ ∀ e w3, invoke c ev w2 = Raise e w3 →
        set_extensions invoke i v w = Raise e w3.
Proof.
  intros Hreg Hrefs Hkeep Hd.
  destruct (set_extensions_known invoke i ep v w Hreg) as (old & w1 & Hget & Hrun).
  destruct (_get_extensions_same i w old w1 Hget) as (Hsame & _).
  pose proof Hsame as (_ & _ & Hcol & _).
  set (ev := {| extension_point_id := i; added := v; removed := old;
                index := None |}) in *.
  set (w2 := with_private _ _) in Hrun.
  destruct (_call_listeners_loop_called invoke pre ev
              (λ w0, collected w0 = collected w) (collected w) w2)
    as (w3 & Hloop & Hcol3); [done|done|done|].
  rewrite (omap_deref_collected w w2) in Hloop by done.
  exists ev, w2, w3. split_and!; try done.
  - apply lookup_insert_eq.
  - by eapply _call_listeners_loop_in_order.
  - intros e w4 Hraise. rewrite Hrun, Hrefs. unfold bind.
    rewrite (_call_listeners_loop_raise pre r rest c e ev w2 _ w3 w4 Hloop); try done.
    by rewrite (deref_collected w w3).
Qed.

Lemma deref_objects_of w l o :
  o ∈ objects_of l → o ∈ collected w → deref w (_saferef l) = None.
Proof.
  destruct l as [self func|obj]; simpl; intros Ho Hc; case_decide; try done.
  - exfalso. set_solver.
  - exfalso. set_solver.
Qed.

(** X5.  Once an object that a listener depends on has been collected
    (the instance or the function of a bound method, or the callable
    itself), [set_extensions] no longer calls that listener, and raises
    nothing because of it. *)
Theorem collected_listener_is_not_called l o i ep v w :
  o ∈ objects_of l →
  let w' := state_of (perform invoke (Collect o) w) in
  _extension_points (registry w) !! i = Some ep →
  listeners_keep invoke (listener_refs w' i) (λ w0, collected w0 = collected w') →
  ∃ ev called w2,
    set_extensions invoke i v w' = Ok (ev, called) w2 ∧ l ∉ called.
Proof.
  intros Ho w' Hreg Hkeep.
  destruct (set_extensions_known invoke i ep v w' Hreg) as (old & w1 & Hget & Hrun).
  destruct (_get_extensions_frame i w' old w1 Hget) as (Hcol & _).
  set (ev := {| extension_point_id := i; added := v; removed := old;
                index := None |}) in *.
  set (w2 := with_private _ _) in Hrun.
  destruct (_call_listeners_loop_called invoke (listener_refs w' i) ev
              (λ w0, collected w0 = collected w') (collected w') w2)
    as (w3 & Hloop & _); [done|done|done|].
  rewrite (omap_deref_collected w' w2) in Hloop by done.
  exists ev, (omap (deref w') (listener_refs w' i)), w3.
  split; [rewrite Hrun; unfold bind; by rewrite Hloop|].
  intros Hin. apply list_elem_of_omap in Hin as (r & _ & Hr).
  pose proof (deref__saferef w' r l Hr) as <-.
  rewrite (deref_objects_of w' l o) in Hr; [done|done|].
  subst w'; simpl. set_solver.
Qed.

(** ** Reading *)

(** X6.  [get_extensions] never raises and returns a new list object with
    the extensions of the id; in a world where the stored references are
    to allocated lists, it changes the extensions of no id (although it may
    store an empty list for the id read), the contents of no existing list,
    and no descriptor or listener. *)
Theorem get_extensions_changes_no_extensions i w :
  (∀ j s, _extensions (registry w) !! j = Some s → s ∈ dom (heap w)) →
  ∃ a w',
    get_extensions i w = Ok a w'
    ∧ (a ∉ dom (heap w))
    ∧ contents w' a = stored w i
    ∧ (∀ j, stored w' j = stored w j)
    ∧ (∀ b, b ∈ dom (heap w) → contents w' b = contents w b)
    ∧ _extension_points (registry w') = _extension_points (registry w)
    ∧ _listeners (registry w') = _listeners (registry w)
    ∧ collected w' = collected w.
Proof.
  intros Halloc. unfold stored.
  pose proof (fresh_heap (heap w)) as Hf0.
  destruct (_extensions (registry w) !! i) as [s|] eqn:Hs.
  - set (a := fresh (dom (heap w))) in *.
    exists a, (with_heap <[a := contents w s]> w).
    split; [by apply get_extensions_Some|]. simpl.
    split_and!; try done.
    + apply contents_insert_eq.
    + intros j. destruct (_extensions (registry w) !! j) as [t|] eqn:Ht; [|done].
      apply contents_insert_ne. intros <-. by apply Hf0, (Halloc j).
    + intros b Hb. apply contents_insert_ne. by intros <-.
  - pose proof (get_extensions_None i w Hs) as Hget. simpl in Hget.
    set (a0 := fresh (dom (heap w))) in *.
    set (w0 := with_registry (with_extensions <[i := a0]>)
                 (with_private (union {[a0]}) (with_heap <[a0 := []]> w))) in *.
    pose proof (fresh_heap (heap w0)) as Hf1.
    set (a := fresh (dom (heap w0))) in *.
    assert (dom (heap w0) = {[a0]} ∪ dom (heap w)) as Hdom.
    { subst w0; simpl. by rewrite dom_insert_L. }
    rewrite Hdom in Hf1.
    exists a, (with_heap <[a := []]> w0).
    split; [done|]. simpl.
    split_and!; try done.
    + set_solver.
    + apply contents_insert_eq.
    + intros j. destruct (decide (i = j)) as [<-|Hne].
      * rewrite lookup_insert_eq, Hs. rewrite contents_insert_ne by set_solver.
        subst w0. apply contents_insert_eq.
      * rewrite lookup_insert_ne by done.
        destruct (_extensions (registry w) !! j) as [t|] eqn:Ht; [|done].
        pose proof (Halloc j t Ht).
        rewrite contents_insert_ne by set_solver.
        subst w0. unfold contents; simpl. rewrite lookup_insert_ne; [done|]. set_solver.
    + intros b Hb. rewrite contents_insert_ne by set_solver.
      subst w0. unfold contents; simpl. rewrite lookup_insert_ne; [done|]. set_solver.
Qed.

(** X7.  After [remove_extension_point] the id has no descriptor and no
    extensions: [get_extension_point] returns [None] and [get_extensions]
    an empty list.  The listeners called by the removal are taken to return
    normally, not to add the extension point again and not to contribute
    to it. *)
Theorem get_after_remove_extension_point i ep w :
  _extension_points (registry w) !! i = Some ep →
  listeners_keep invoke (listener_refs w i)
    (λ w0, _extension_points (registry w0) !! i = None ∧ stored_empty i w0) →
  ∃ ev called w1 a w2,
    remove_extension_point invoke i w = Ok (ev, called) w1
    ∧ get_extension_point i w1 = Ok None w1
    ∧ get_extensions i w1 = Ok a w2
    ∧ contents w2 a = [].
Proof.
  intros Hreg Hkeep.
  destruct (remove_extension_point_known invoke i ep w Hreg)
    as (empty & old & w1 & Hrun & Hpts & Hexts & _).
  set (ev := {| extension_point_id := i; removed := old |}) in *.
  destruct (_call_listeners_loop_keep invoke (listener_refs w i) ev
              (λ w0, _extension_points (registry w0) !! i = None ∧ stored_empty i w0) w1)
    as (called & w2 & Hloop & Hnone & Hempty); [done| |].
  { split; [by rewrite Hpts, lookup_delete_eq|].
    intros a. by rewrite Hexts, lookup_delete_eq. }
  assert (∃ a w3, get_extensions i w2 = Ok a w3 ∧ contents w3 a = [])
    as (a & w3 & Hget & Hc).
  { destruct (_extensions (registry w2) !! i) as [s|] eqn:Hs.
    - eexists _, _. split; [by apply get_extensions_Some|].
      rewrite contents_insert_eq. unfold contents. by rewrite (Hempty s Hs).
    - eexists _, _. split; [by apply get_extensions_None|].
      apply contents_insert_eq. }
  exists ev, called, w2, a, w3. split_and!; try done.
  - rewrite Hrun. unfold bind. by rewrite Hloop.
  - unfold get_extension_point, gets. by rewrite Hnone.
Qed.

(** X8.  [add_extension_point] makes the descriptor the one that
    [get_extension_point] returns for its id, replacing an earlier one, and
    changes nothing else: the descriptors of other ids, the extensions of
    every id (those of the id itself included) and the listeners stay. *)
Theorem add_extension_point_then_get_extension_point d w :
  ∃ w1,
    add_extension_point d w = Ok tt w1
    ∧ get_extension_point (id d) w1 = Ok (Some d) w1
    ∧ (∀ j, j ≠ id d →
         value_of (get_extension_point j w1) = value_of (get_extension_point j w))
    ∧ (∀ j, stored w1 j = stored w j)
    ∧ (∀ j, listener_refs w1 j = listener_refs w j).
Proof.
  eexists. split; [reflexivity|].
  unfold get_extension_point, gets; simpl.
  split_and!; try done.
  - by rewrite lookup_insert_eq.
  - intros j Hne. by rewrite lookup_insert_ne.
Qed.

(** ** Removing a listener *)

Lemma list_remove_None {A} (eq : A → bool) (l : list A) :
  list_remove eq l = None ↔ ∀ y, y ∈ l → eq y = false.
Proof.
  induction l as [|x l IH]; simpl.
  - split; [|done]. intros _ y Hy. by apply elem_of_nil in Hy.
  - destruct (eq x) eqn:Hx.
    + split; [done|]. intros H. rewrite H in Hx; [done|by left].
    + rewrite fmap_None, IH. split.
      * intros H y [->|Hy]%elem_of_cons; auto.
      * intros H y Hy. apply H. by right.
Qed.

Lemma list_remove_Some {A} (eq : A → bool) (l l' : list A) :
  list_remove eq l = Some l' ↔
  ∃ l1 y l2, l = l1 ++ y :: l2 ∧ l' = l1 ++ l2 ∧ eq y = true
             ∧ ∀ z, z ∈ l1 → eq z = false.
Proof.
  revert l'. induction l as [|x l IH]; intros l'; simpl.
  - split; [done|]. intros (l1 & y & l2 & H & _). by destruct l1.
  - destruct (eq x) eqn:Hx.
    + split.
      * intros [= <-]. exists [], x, l. split_and!; try done.
        intros z Hz. by apply elem_of_nil in Hz.
      * intros (l1 & y & l2 & H & -> & Hy & Hl1). destruct l1 as [|z l1].
        -- by injection H as -> ->.
        -- injection H as -> ->. rewrite Hl1 in Hx; [done|by left].
    + rewrite fmap_Some. split.
      * intros (l0 & Hrem & ->). apply IH in Hrem as (l1 & y & l2 & -> & -> & Hy & Hl1).
        exists (x :: l1), y, l2. split_and!; try done.
        intros z [->|Hz]%elem_of_cons; auto.
      * intros (l1 & y & l2 & H & -> & Hy & Hl1). destruct l1 as [|z l1].
        -- injection H as -> ->. congruence.
        -- injection H as -> ->. exists (l1 ++ l2). split; [|done].
           apply IH. exists l1, y, l2. split_and!; try done.
           intros z' Hz'. apply Hl1. by right.
Qed.

(** Equality of objects, as the listeners' classes define it. *)
Variable object_eq : oid → oid → bool.

(** A live listener's reference is equal to a new reference to the same
    listener: always for a plain reference, and for a bound method when
    instance and function are equal to themselves. *)
Lemma weak_eq_refl w l :
  deref w (_saferef l) = Some l →
  (∀ self func, l = BoundMethod self func →
     object_eq self self = true ∧ object_eq func func = true) →
  weak_eq object_eq w (_saferef l) (_saferef l) = true.
Proof.
  destruct l as [self func|obj]; simpl; case_decide; intros [=] Hrefl.
  - destruct (Hrefl self func eq_refl) as [-> ->].
    rewrite !andb_true_iff, !bool_decide_eq_true. split_and!; by eauto.
  - rewrite !andb_true_iff, orb_true_iff, !bool_decide_eq_true.
    split_and!; [done|done|by left].
Qed.

(** Only a reference whose referent exists is equal to another one. *)
Lemma weak_eq_alive w item value :
  weak_eq object_eq w item value = true → referent item ∉ collected w.
Proof.
  destruct item as [self1 func1|obj1], value as [self2 func2|obj2]; simpl;
    rewrite !andb_true_iff, !bool_decide_eq_true; try naive_solver.
  intros ((([c Hc] & _) & _) & _). simpl in Hc. case_decide; [done|]. tauto.
Qed.

Lemma listener_refs_default w w' :
  (∀ k, default [] (_listeners (registry w') !! k)
        = default [] (_listeners (registry w) !! k)) →
  ∀ i, listener_refs w' i = listener_refs w i.
Proof. intros H i. unfold listener_refs. by rewrite !H. Qed.

(** X9.  Adding a live listener and removing it again restores the
    listener list of its key when no reference already in that list is
    equal to the new one and, for a bound method, instance and function are
    equal to themselves; the lists of the other keys are untouched, and
    every id is dispatched to the same references as before.  References
    are compared as [list.remove] compares them: the objects they refer to
    with [==], not by identity. *)
Theorem add_then_remove_listener l k w :
  deref w (_saferef l) = Some l →
  (∀ self func, l = BoundMethod self func →
     object_eq self self = true ∧ object_eq func func = true) →
  (∀ y, y ∈ default [] (_listeners (registry w) !! k) →
        weak_eq object_eq w y (_saferef l) = false) →
  ∃ w1 w2,
    add_extension_point_listener l k w = Ok tt w1
    ∧ remove_extension_point_listener object_eq l k w1 = Ok tt w2
    ∧ _listeners (registry w2) !! k
        = Some (default [] (_listeners (registry w) !! k))
    ∧ (∀ k', k' ≠ k → _listeners (registry w2) !! k' = _listeners (registry w) !! k')
    ∧ (∀ i, listener_refs w2 i = listener_refs w i)
    ∧ _extensions (registry w2) = _extensions (registry w)
    ∧ _extension_points (registry w2) = _extension_points (registry w)
    ∧ heap w2 = heap w.
Proof.
  intros Halive Hrefl Hnew.
  set (old := default [] (_listeners (registry w) !! k)) in *.
  eexists _, _. split; [reflexivity|].
  unfold remove_extension_point_listener; simpl.
  rewrite lookup_insert_eq; simpl. fold old.
  assert (list_remove (λ item, weak_eq object_eq w item (_saferef l))
            (old ++ [_saferef l])
          = Some old) as Hrem.
  { apply list_remove_Some. exists old, (_saferef l), [].
    rewrite app_nil_r. split_and!; try done. by apply weak_eq_refl. }
  unfold weak_eq, deref in *; simpl. rewrite Hrem.
  split; [reflexivity|]. simpl.
  split; [by rewrite lookup_insert_eq|].
  split.
  { intros k' Hne. by rewrite !lookup_insert_ne. }
  split; [|done].
  apply listener_refs_default. intros k'; simpl.
  destruct (decide (k = k')) as [<-|Hne].
  - by rewrite lookup_insert_eq.
  - by rewrite !lookup_insert_ne.
Qed.

(** X10.  Removing a listener when no reference in the list of its key is
    equal to a reference to it (it was never added for that key and is
    equal to no listener that was, or the references are expired) raises
    [ValueError]; no list of listeners changes, so every id is dispatched
    to the same references as before, and nothing else in the world
    changes. *)
Theorem remove_listener_never_added l k w :
  (∀ y, y ∈ default [] (_listeners (registry w) !! k) →
        weak_eq object_eq w y (_saferef l) = false) →
  ∃ w',
    remove_extension_point_listener object_eq l k w
      = Raise (ValueError "list.remove(x): x not in list") w'
    ∧ (∀ k', default [] (_listeners (registry w') !! k')
             = default [] (_listeners (registry w) !! k'))
    ∧ (∀ i, listener_refs w' i = listener_refs w i)
    ∧ _extensions (registry w') = _extensions (registry w)
    ∧ _extension_points (registry w') = _extension_points (registry w)
    ∧ heap w' = heap w.
Proof.
  intros Hnew. unfold remove_extension_point_listener.
  rewrite (proj2 (list_remove_None _ _) Hnew).
  eexists. split; [reflexivity|].
  assert (∀ k', default [] (<[k := default [] (_listeners (registry w) !! k)]>
                              (_listeners (registry w)) !! k')
                = default [] (_listeners (registry w) !! k')) as Hsame.
  { intros k'. destruct (decide (k = k')) as [<-|Hne].
    - by rewrite lookup_insert_eq.
    - by rewrite lookup_insert_ne. }
  split_and!; try done. by apply listener_refs_default.
Qed.

(** X11.  Removing a listener when some reference in the list of its key
    is equal to a reference to it returns normally and takes out one
    registration: the first whose reference is equal, which is the
    registration of another listener when that one is equal to this one
    ([==]) and was registered before it, or when this one was never
    registered.  All other registrations stay, in their order. *)
Theorem remove_listener_removes_first_registration l k w y0 :
  y0 ∈ default [] (_listeners (registry w) !! k) →
  weak_eq object_eq w y0 (_saferef l) = true →
  ∃ w' l1 y l2,
    remove_extension_point_listener object_eq l k w = Ok tt w'
    ∧ default [] (_listeners (registry w) !! k) = l1 ++ y :: l2
    ∧ _listeners (registry w') !! k = Some (l1 ++ l2)
    ∧ weak_eq object_eq w y (_saferef l) = true
    ∧ (∀ z, z ∈ l1 → weak_eq object_eq w z (_saferef l) = false)
    ∧ (∀ k', k' ≠ k → _listeners (registry w') !! k' = _listeners (registry w) !! k').
Proof.
  intros Hin Heq. unfold remove_extension_point_listener.
  destruct (list_remove _ _) as [l'|] eqn:Hrem.
  - apply list_remove_Some in Hrem as (l1 & y & l2 & Hl & -> & Hy & Hl1).
    eexists _, l1, y, l2. split; [reflexivity|]. simpl.
    split_and!; try done.
    + by rewrite lookup_insert_eq.
    + intros k' Hne. by rewrite lookup_insert_ne.
  - rewrite list_remove_None in Hrem. specialize (Hrem _ Hin). congruence.
Qed.

(** X12.  A reference whose object has been collected cannot be removed:
    whatever listener [remove_extension_point_listener] is called with and
    whether it returns or raises, the expired references in every list
    stay, in their order. *)
Theorem collected_listener_cannot_be_removed l k w :
  let w' := state_of (remove_extension_point_listener object_eq l k w) in
  ∀ k', filter (λ y, referent y ∈ collected w)
          (default [] (_listeners (registry w') !! k'))
        = filter (λ y, referent y ∈ collected w)
            (default [] (_listeners (registry w) !! k')).
Proof.
  intros w' k'. subst w'. unfold remove_extension_point_listener.
  destruct (list_remove _ _) as [l'|] eqn:Hrem; simpl.
  - apply list_remove_Some in Hrem as (l1 & y & l2 & Heq & -> & Hy & _).
    destruct (decide (k = k')) as [<-|Hne]; [|by rewrite lookup_insert_ne].
    rewrite lookup_insert_eq, Heq; simpl.
    rewrite !filter_app, filter_cons_False; [done|].
    by apply weak_eq_alive in Hy.
  - destruct (decide (k = k')) as [<-|Hne]; [|by rewrite lookup_insert_ne].
    by rewrite lookup_insert_eq.
Qed.

(** ** The observable registry *)

Lemma dict_get_contents (d : gmap string nat) key w :
  ∃ a w', ObservableExtensionRegistry.dict_get d key w = Ok a w'
    ∧ contents w' a = match d !! key with Some b => contents w b | None => [] end
    ∧ (∀ b, contents w' b = contents w b).
Proof.
  unfold ObservableExtensionRegistry.dict_get.
  destruct (d !! key) as [b|].
  - by exists b, w.
  - eexists _, _. split; [reflexivity|]. split; [apply contents_insert_eq|].
    intros b. destruct (decide (fresh (dom (heap w)) = b)) as [<-|Hne].
    + rewrite contents_insert_eq. unfold contents. by rewrite fresh_heap_lookup.
    + by apply contents_insert_ne.
Qed.

(** X13.  The handler that [ObservableExtensionRegistry] observes its
    dictionary with calls the listener only when the id it was made for is
    a key of the items added or removed, and then once, with an event for
    that id whose [added] and [removed] hold the item added and the item
    removed (empty when there is none) and whose [index] is [None].  A
    handler made for every id ([None]) never calls its listener. *)
Theorem observable_handler_calls l event w :
  ObservableExtensionRegistry._create_observer_handler invoke l None event w
    = Ok None w
  ∧ ∀ i,
      (ObservableExtensionRegistry.added event !! i = None →
       ObservableExtensionRegistry.removed event !! i = None →
       ObservableExtensionRegistry._create_observer_handler invoke l (Some i) event w
         = Ok None w)
      ∧ (is_Some (ObservableExtensionRegistry.added event !! i)
         ∨ is_Some (ObservableExtensionRegistry.removed event !! i) →
         ∃ ev w1,
           extension_point_id ev = i
           ∧ index ev = None
           ∧ contents w1 (added ev)
               = match ObservableExtensionRegistry.added event !! i with
                 | Some a => contents w a
                 | None => []
                 end
           ∧ contents w1 (removed ev)
               = match ObservableExtensionRegistry.removed event !! i with
                 | Some a => contents w a
                 | None => []
                 end
           ∧ registry w1 = registry w
           ∧ ObservableExtensionRegistry._create_observer_handler invoke l (Some i)
               event w
             = (invoke l ev;; ret (Some ev)) w1).
Proof.
  split; [done|]. intros i. split.
  - intros Ha Hr. unfold ObservableExtensionRegistry._create_observer_handler.
    by rewrite bool_decide_eq_true_2.
  - intros Hsome. unfold ObservableExtensionRegistry._create_observer_handler.
    rewrite bool_decide_eq_false_2.
    2:{ intros [Ha Hr]. rewrite Ha, Hr in Hsome. by destruct Hsome as [[]|[]]. }
    destruct (dict_get_contents (ObservableExtensionRegistry.added event) i w)
      as (a & w1 & Hget1 & Hc1 & Hsame1).
    destruct (dict_get_contents (ObservableExtensionRegistry.removed event) i w1)
      as (r & w2 & Hget2 & Hc2 & Hsame2).
    exists (Build_ExtensionPointChangedEvent i a r None), w2.
    split_and!; try done.
    + simpl. by rewrite Hsame2, Hc1.
    + simpl. rewrite Hc2.
      destruct (ObservableExtensionRegistry.removed event !! i); [|done]. apply Hsame1.
    + unfold ObservableExtensionRegistry.dict_get in *.
      destruct (ObservableExtensionRegistry.added event !! i);
        destruct (ObservableExtensionRegistry.removed event !! i);
        unfold ret, new_list in *; simplify_eq; done.
    + unfold bind at 1. rewrite Hget1. unfold bind at 1. by rewrite Hget2.
Qed.

End MoreRegistryFacts.

(** * More of the extension point value *)

Section MoreValueFacts.

Import extension_point.

Context {V : Type} `{!EqDecision V}.
Variable invoke : callable → ExtensionPointChangedEvent → M (World V) unit.
Variable TraitList___setitem__ : list V → key → pyobject (V := V) → M (World V) (list V).
Variable TraitList___delitem__ : list V → key → M (World V) (list V).

Implicit Types (w : World V) (self : _ExtensionPointValue (V := V)).

Local Abbreviation attempt := (attempt TraitList___setitem__ TraitList___delitem__).
Local Abbreviation warned w :=
  (with_warnings (λ ws, ws ++ ["Extension point cannot be mutated directly."]) w).

Lemma string_length_app (s1 s2 : string) :
  String.length (s1 +:+ s2) = (String.length s1 + String.length s2)%nat.
Proof.
  induction s1 as [|c s1 IH]; [done|].
  change (S (String.length (s1 +:+ s2)) = S (String.length s1 + String.length s2)).
  by rewrite IH.
Qed.

(** X14.  The cache names of two different traits differ, and the cache
    name of a trait differs from the name of the trait. *)
Theorem _get_cache_name_inj :
  (∀ n1 n2, _get_cache_name n1 = _get_cache_name n2 → n1 = n2)
  ∧ ∀ n, _get_cache_name n ≠ n.
Proof.
  unfold _get_cache_name. split.
  - intros n1 n2 [= Heq]. exact Heq.
  - intros n H. apply (f_equal String.length) in H.
    rewrite string_length_app in H. simpl in H. lia.
Qed.

(** X15.  A value whose owner has no extension registry (any more) cannot
    be read outside the internal path: [len], [==] and indexing raise the
    [ValueError] of [_get_extension_registry] and touch nothing.  The
    mutators that only warn still return normally, while [+=] and [*=]
    raise that error after having warned. *)
Theorem value_without_registry self object name ep w :
  _internal_use self = false →
  _object self = Some object →
  _name self = Some name →
  traits object !! name = Some ep →
  extension_registry object = None →
  ∃ msg,
    __len__ self w = Raise (ValueError msg) w
    ∧ (∀ other, __eq__ self other w = Raise (ValueError msg) w)
    ∧ (∀ key, __getitem__ self key w = Raise (ValueError msg) w)
    ∧ (∀ x, attempt (Append x) self w = Ok (self, None) (warned w))
    ∧ (∀ key x, attempt (SetItem key x) self w = Ok (self, None) (warned w))
    ∧ (∀ key, attempt (DelItem key) self w = Ok (self, None) (warned w))
    ∧ (∀ x, attempt (IAdd x) self w = Raise (ValueError msg) (warned w))
    ∧ (∀ n, attempt (IMul n) self w = Raise (ValueError msg) (warned w)).
Proof.
  intros Hint Hobj Hname Htrait Hreg.
  assert (∃ msg, ∀ w', _get_extension_registry (V := V) ep object w'
                       = Raise (ValueError msg) w') as [msg Hmsg].
  { unfold _get_extension_registry. rewrite Hreg. eexists. intros w'. reflexivity. }
  exists msg.
  assert (∀ w', current self w' = Raise (ValueError msg) w') as Hcur.
  { intros w'. unfold current, reference, bind at 1. rewrite Hobj, Hname.
    unfold ret at 1, bind at 1, _get_extensions. rewrite Htrait.
    unfold bind at 1. by rewrite Hmsg. }
  split_and!.
  - unfold __len__. rewrite Hint. unfold bind. by rewrite Hcur.
  - intros other. unfold __eq__. rewrite Hint. unfold bind. by rewrite Hcur.
  - intros key. unfold __getitem__. rewrite Hint. unfold bind. by rewrite Hcur.
  - done.
  - intros key x. simpl. unfold __setitem__. by rewrite Hint.
  - intros key. simpl. unfold __delitem__. by rewrite Hint.
  - intros x. simpl. unfold __iadd__, bind at 1, bind at 1. rewrite warn_Ok.
    unfold bind at 1, __getitem__. rewrite Hint. unfold bind. by rewrite Hcur.
  - intros n. simpl. unfold __imul__, bind at 1, bind at 1. rewrite warn_Ok.
    unfold bind at 1, __getitem__. rewrite Hint. unfold bind. by rewrite Hcur.
Qed.

(** X16.  Inside [_internal_sync] item assignment and deletion are handed
    to [TraitList] and change [data] without a warning, and [len] reads
    [data] without going to the registry; when the block is left the flag
    is cleared, also when [TraitList] raises, so that the value refuses
    direct mutation again. *)
Theorem _internal_sync_lets_TraitList_mutate self key x w :
  (∀ l w', TraitList___setitem__ (data self) key x w = Ok l w' →
     _internal_sync (on_value (λ s, __setitem__ TraitList___setitem__ s key x)) (self, w)
       = Ok tt (set_internal_use (set_data self l) false, w'))
  ∧ (∀ e w', TraitList___setitem__ (data self) key x w = Raise e w' →
     _internal_sync (on_value (λ s, __setitem__ TraitList___setitem__ s key x)) (self, w)
       = Raise e (set_internal_use self false, w'))
  ∧ (∀ l w', TraitList___delitem__ (data self) key w = Ok l w' →
     _internal_sync (on_value (λ s, __delitem__ TraitList___delitem__ s key)) (self, w)
       = Ok tt (set_internal_use (set_data self l) false, w'))
  ∧ (∀ e w', TraitList___delitem__ (data self) key w = Raise e w' →
     _internal_sync (on_value (λ s, __delitem__ TraitList___delitem__ s key)) (self, w)
       = Raise e (set_internal_use self false, w'))
  ∧ _internal_sync (on_value (λ s, let! n := __len__ s in ret (s, n))) (self, w)
      = Ok (length (data self)) (set_internal_use self false, w)
  ∧ ∀ {A} (body : M (_ExtensionPointValue * World V) A),
      _internal_use (state_of (_internal_sync body (self, w))).1 = false.
Proof.
  split_and!.
  - intros l w' H. unfold _internal_sync, on_value, __setitem__, bind; simpl. by rewrite H.
  - intros e w' H. unfold _internal_sync, on_value, __setitem__, bind; simpl. by rewrite H.
  - intros l w' H. unfold _internal_sync, on_value, __delitem__, bind; simpl. by rewrite H.
  - intros e w' H. unfold _internal_sync, on_value, __delitem__, bind; simpl. by rewrite H.
  - done.
  - intros A body. unfold _internal_sync; simpl. by destruct (body _).
Qed.

(** X17.  [append], [insert], [remove], [clear], [pop] and [extend] are
    refused for every value, whether or not it has an owner, also inside
    [_internal_sync]: they warn, return normally and leave the object and
    the rest of the world as they are. *)
Theorem plain_mutators_always_refused m self w :
  match m with
  | Append _ | Insert _ _ | Remove _ | Clear | Pop _ | Extend _ => True
  | _ => False
  end →
  attempt m self w = Ok (self, None) (warned w)
  ∧ _internal_sync (on_value (attempt m)) (self, w)
      = Ok None (set_internal_use self false, warned w).
Proof. by destruct m. Qed.

Lemma list_index_spec (l : list V) k :
  let n := Z.of_nat (length l) in
  (0 ≤ k < n → list_index l k = l !! Z.to_nat k ∧ is_Some (l !! Z.to_nat k))
  ∧ (- n ≤ k < 0 → list_index l k = l !! Z.to_nat (n + k)
                    ∧ is_Some (l !! Z.to_nat (n + k)))
  ∧ ((k < - n)%Z ∨ (n ≤ k)%Z → list_index l k = None).
Proof.
  intros n. unfold list_index. cbv zeta. fold n.
  split_and!; intros Hk; repeat case_decide; try lia.
  - split; [done|]. apply lookup_lt_is_Some. lia.
  - replace (k + n) with (n + k) by lia. split; [done|].
    apply lookup_lt_is_Some. lia.
  - done.
  - done.
Qed.

(** X18.  Indexing a cached value with an integer follows the extensions
    in the registry: with [n] of them, an index from 0 to [n - 1] gives the
    extension at that position, an index from [-n] to -1 counts from the
    end, and any other index raises [IndexError]; [len] gives [n]. *)
Theorem indexing_follows_the_registry self i k w :
  bound self i →
  let l := stored w i in
  let n := Z.of_nat (length l) in
  value_of (__len__ self w) = inl (length l)
  ∧ (0 ≤ k < n → ∃ x, l !! Z.to_nat k = Some x
        ∧ value_of (__getitem__ self (Index k) w) = inl (Item x))
  ∧ (- n ≤ k < 0 → ∃ x, l !! Z.to_nat (n + k) = Some x
        ∧ value_of (__getitem__ self (Index k) w) = inl (Item x))
  ∧ ((k < - n)%Z ∨ (n ≤ k)%Z →
        value_of (__getitem__ self (Index k) w) = inr IndexError).
Proof.
  intros Hb l n.
  pose proof (value_of___getitem___bound self i k w Hb) as Hget. fold l in Hget.
  destruct (list_index_spec l k) as (Hpos & Hneg & Hout). fold n in Hpos, Hneg, Hout.
  split_and!.
  - by apply value_of___len___bound.
  - intros Hk. destruct (Hpos Hk) as [Heq [x Hx]]. exists x. split; [done|].
    by rewrite Hget, Heq, Hx.
  - intros Hk. destruct (Hneg Hk) as [Heq [x Hx]]. exists x. split; [done|].
    by rewrite Hget, Heq, Hx.
  - intros Hk. by rewrite Hget, (Hout Hk).
Qed.

Lemma omap_lookup_range (l : list V) (lo c : nat) :
  (lo + c ≤ length l)%nat →
  omap (λ j, l !! Z.to_nat j) ((λ k, Z.of_nat lo + k * 1) <$> seqZ 0 (Z.of_nat c))
  = take c (drop lo l).
Proof.
  intros Hle. induction c as [|c IH]; [done|].
  rewrite seqZ_S, fmap_app, omap_app, IH by lia. csimpl.
  replace (Z.to_nat (Z.of_nat lo + (0 + Z.of_nat c) * 1)) with (lo + c)%nat by lia.
  destruct (lookup_lt_is_Some_2 l (lo + c)%nat) as [x Hx]; [lia|].
  rewrite Hx. simpl. symmetry. apply take_S_r. by rewrite lookup_drop.
Qed.

(** A slice without step is the part of the list between the two bounds,
    each counted from the end when negative and cut to the list. *)
Lemma list_slice_take_drop (l : list V) start stop :
  let n := Z.of_nat (length l) in
  let clamp (x : Z) := if decide (x < 0) then Z.max (x + n) 0 else Z.min x n in
  let lo := Z.to_nat (from_option clamp 0 start) in
  let hi := Z.to_nat (from_option clamp n stop) in
  list_slice l start stop None = Some (take (hi - lo) (drop lo l)).
Proof.
  intros n clamp lo hi. unfold list_slice, slice_indices. simpl.
  fold n. f_equal. unfold range. rewrite decide_True by lia.
  assert (0 ≤ from_option clamp 0 start ≤ n)%Z as Hlo.
  { destruct start as [x|]; simpl; [|lia]. unfold clamp. case_decide; lia. }
  assert (0 ≤ from_option clamp n stop ≤ n)%Z as Hhi.
  { destruct stop as [x|]; simpl; [|lia]. unfold clamp. case_decide; lia. }
  assert (match start with
          | Some x => if decide (x < 0) then (x + n) `max` 0 else x `min` n
          | None => 0
          end = Z.of_nat lo) as ->.
  { subst lo. rewrite Z2Nat.id by lia. by destruct start. }
  assert (match stop with
          | Some x => if decide (x < 0) then (x + n) `max` 0 else x `min` n
          | None => n
          end = Z.of_nat hi) as ->.
  { subst hi. rewrite Z2Nat.id by lia. by destruct stop. }
  case_decide as Hlt.
  - rewrite Z.div_1_r.
    replace (Z.of_nat hi - Z.of_nat lo - 1 + 1) with (Z.of_nat (hi - lo)) by lia.
    apply omap_lookup_range. subst hi n. lia.
  - replace (hi - lo)%nat with 0%nat by lia. done.
Qed.

(** X19.  A slice without step of a cached value is a new list holding the
    part of the registry's extensions between the two bounds, a negative
    bound counting from the end and a bound outside the list being cut to
    it; it never raises.  A slice with step 0 raises [ValueError]. *)
Theorem slicing_follows_the_registry self i start stop w :
  bound self i →
  let l := stored w i in
  let n := Z.of_nat (length l) in
  let clamp (x : Z) := if decide (x < 0) then Z.max (x + n) 0 else Z.min x n in
  let lo := Z.to_nat (from_option clamp 0 start) in
  let hi := Z.to_nat (from_option clamp n stop) in
  (∃ a w', __getitem__ self (Slice start stop None) w = Ok (ListRef a) w'
           ∧ contents w' a = take (hi - lo) (drop lo l))
  ∧ value_of (__getitem__ self (Slice start stop (Some 0)) w)
      = inr (ValueError "slice step cannot be zero").
Proof.
  intros Hb l n clamp lo hi. split.
  - destruct (__getitem___bound self i (Slice start stop None) w Hb)
      as (a & w1 & _ & ->).
    unfold list___getitem__. fold l. rewrite (list_slice_take_drop l start stop).
    eexists _, _. split; [reflexivity|]. apply contents_insert_eq.
  - by destruct (__getitem___bound self i (Slice start stop (Some 0)) w Hb)
      as (a & w1 & _ & ->).
Qed.


(** X21.  [_update_cache] builds a value that is in sync: its own [data]
    holds the extensions that the registry has for the id of the trait,
    which is also what the value reads as, and it is outside the internal
    path.  For a name that is no trait of the object it raises
    [AttributeError], for an object without registry [ValueError]; in both
    cases nothing changes. *)
Theorem _update_cache_in_sync obj name w :
  match traits obj !! name, extension_registry obj with
  | None, _ => _update_cache obj name w = Raise (AttributeError "trait_type") w
  | Some ep, None => ∃ msg, _update_cache obj name w = Raise (ValueError msg) w
  | Some ep, Some _ =>
      ∃ new w',
        _update_cache obj name w = Ok new w'
        ∧ bound new (id ep)
        ∧ data new = stored w (id ep)
        ∧ stored w' (id ep) = stored w (id ep)
        ∧ value_of (__len__ new w') = inl (length (data new))
        ∧ ∀ k, value_of (__getitem__ new (Index k) w')
               = match list_index (data new) k with
                 | Some x => inl (Item x)
                 | None => inr IndexError
                 end
  end.
Proof.
  destruct (traits obj !! name) as [ep|] eqn:Htrait.
  2:{ unfold _update_cache, bind, _get_extensions. by rewrite Htrait. }
  destruct (extension_registry obj) as [[]|] eqn:Hreg.
  2:{ unfold _update_cache, bind at 1, _get_extensions. rewrite Htrait.
      unfold bind, _get_extension_registry. rewrite Hreg. by eexists. }
  destruct (get_extensions_stored (id ep) w) as (a & w1 & Hget & Hc & Hst & _).
  assert (∃ new, _update_cache obj name w = Ok new w1) as [new Hnew].
  { unfold _update_cache, bind at 1, _get_extensions. rewrite Htrait.
    unfold bind at 1, _get_extension_registry. rewrite Hreg. unfold ret at 1.
    rewrite Hget. by eexists. }
  destruct (_update_cache_bound obj name w new w1 Hnew) as (ep' & Htrait' & Hb & Hdata).
  assert (ep' = ep) as -> by congruence.
  exists new, w1. split_and!; try done.
  - by rewrite (value_of___len___bound new (id ep) w1 Hb), Hdata, Hst.
  - intros k. by rewrite (value_of___getitem___bound new (id ep) k w1 Hb), Hdata, Hst.
Qed.

End MoreValueFacts.

(** * Connecting and disconnecting a trait *)

Section ConnectFacts.

Import extension_point.

Context {V : Type} `{!EqDecision V}.
Variable object_eq : oid → oid → bool.

Implicit Types (w : World V) (m : gmap oid (gmap string callable))
  (point : ExtensionPoint) (obj : HasTraits) (o f : oid) (name : string).

(** A function that is equal to no other object and that no stored
    reference refers to: no stored reference is equal to a reference to
    it, in any world. *)
Lemma weak_eq_new w (l : list weak) f :
  (∀ y, y ∈ l → referent y ≠ f) →
  (∀ y, y ∈ l → object_eq (referent y) f = false ∧ object_eq f (referent y) = false) →
  ∀ y, y ∈ l → weak_eq object_eq w y (WeakRef f) = false.
Proof.
  intros Hnew Heq y Hy. specialize (Hnew y Hy). destruct (Heq y Hy) as [H1 H2].
  destruct y as [self func|x]; simpl in *.
  - rewrite H2. by rewrite andb_false_r.
  - rewrite H1, orb_false_r, !andb_false_iff, !bool_decide_eq_false. by right.
Qed.

Lemma remove_new_listener w old f ls :
  f ∉ collected w →
  (∀ y, y ∈ old → weak_eq object_eq w y (WeakRef f) = false) →
  list_remove (λ item, weak_eq object_eq w item (WeakRef f)) (old ++ WeakRef f :: ls)
  = Some (old ++ ls).
Proof.
  intros Halive Hnew. apply list_remove_Some.
  exists old, (WeakRef f), ls. split_and!; try done.
  simpl. rewrite !andb_true_iff, orb_true_iff, !bool_decide_eq_true.
  split_and!; [done|done|by left].
Qed.

(** What [connect] leaves, on an object with a registry. *)
Lemma connect_Ok point o obj name f m w :
  extension_registry obj = Some tt →
  connect point o obj name f (m, w)
  = Ok tt (<[o := <[name := Callable f]> (default ∅ (m !! o))]> m,
           with_collected
             (union (dropped (default ∅ (m !! o) !! name) (Some (Callable f))))
             (with_registry
                (with_listeners
                   <[Some (id point) :=
                       default [] (_listeners (registry w) !! Some (id point))
                       ++ [WeakRef f]]>) w)).
Proof.
  intros Hreg. unfold connect, bind, in_world, _get_extension_registry.
  by rewrite Hreg.
Qed.

(** The function that [connect] stores is not the one it drops. *)
Lemma not_elem_of_dropped f old : f ∉ dropped old (Some (Callable f)).
Proof.
  unfold dropped. destruct old as [[self func|g]|]; [set_solver| |set_solver].
  case_decide; [set_solver|]. apply not_elem_of_singleton. congruence.
Qed.

(** X22.  [connect] followed by [disconnect] for the same object and trait
    name: the listener made by [connect] is registered last for the id of
    the extension point and kept under the trait name in the entry of the
    object; [disconnect] takes both out again, so that every id is
    dispatched to the same references as before.  The entry of the object
    itself stays, without the trait name.  The function that [connect]
    makes is new: no reference refers to it yet, it is not what the entry
    holds, and it is equal to no other object, as functions are. *)
Theorem connect_then_disconnect point o obj name f m w :
  extension_registry obj = Some tt →
  f ∉ collected w →
  (∀ y, y ∈ default [] (_listeners (registry w) !! Some (id point)) →
        referent y ≠ f) →
  (∀ y, y ∈ default [] (_listeners (registry w) !! Some (id point)) →
        object_eq (referent y) f = false ∧ object_eq f (referent y) = false) →
  ∃ s1 s2,
    connect point o obj name f (m, w) = Ok tt s1
    ∧ s1.1 !! o = Some (<[name := Callable f]> (default ∅ (m !! o)))
    ∧ _listeners (registry s1.2) !! Some (id point)
        = Some (default [] (_listeners (registry w) !! Some (id point))
                ++ [WeakRef f])
    ∧ disconnect object_eq point o obj name s1 = Ok tt s2
    ∧ s2.1 !! o = Some (delete name (default ∅ (m !! o)))
    ∧ (∀ o', o' ≠ o → s2.1 !! o' = m !! o')
    ∧ _listeners (registry s2.2) !! Some (id point)
        = Some (default [] (_listeners (registry w) !! Some (id point)))
    ∧ (∀ i, listener_refs s2.2 i = listener_refs w i)
    ∧ _extensions (registry s2.2) = _extensions (registry w)
    ∧ _extension_points (registry s2.2) = _extension_points (registry w)
    ∧ heap s2.2 = heap w.
Proof.
  intros Hreg Halive Hnew Heq.
  set (old := default [] (_listeners (registry w) !! Some (id point))) in *.
  eexists _, _.
  split; [by apply connect_Ok|].
  simpl. split; [by rewrite lookup_insert_eq|].
  split; [by rewrite lookup_insert_eq|].
  split.
  { unfold disconnect, bind, in_world, _get_extension_registry, gets.
    rewrite Hreg; simpl. rewrite lookup_insert_eq; simpl.
    rewrite lookup_insert_eq.
    unfold remove_extension_point_listener; simpl.
    rewrite lookup_insert_eq; simpl. fold old.
    set (w1 := with_collected _ _).
    assert (f ∉ collected w1) as Halive1.
    { subst w1; simpl. apply not_elem_of_union. split; [|done].
      apply not_elem_of_dropped. }
    pose proof (remove_new_listener w1 old f [] Halive1
                  (weak_eq_new w1 old f Hnew Heq)) as Hrem.
    rewrite app_nil_r in Hrem. unfold _saferef. rewrite Hrem. reflexivity. }
  simpl. split.
  { rewrite !lookup_insert_eq; simpl. by rewrite delete_insert_eq. }
  split.
  { intros o' Hne. by rewrite !lookup_insert_ne. }
  split; [by rewrite lookup_insert_eq|].
  split; [|done].
  apply listener_refs_default. intros k'; simpl.
  destruct (decide (Some (id point) = k')) as [<-|Hne].
  - by rewrite lookup_insert_eq.
  - by rewrite !lookup_insert_ne.
Qed.

(** X23.  [disconnect] when there is nothing to disconnect.  Without a
    registry on the object [connect] and [disconnect] raise [ValueError].
    With one, [disconnect] for an object that has no entry, because
    [connect] was never called for it, raises [KeyError]; for an object
    that has an entry without the trait name it returns normally.  In all
    these cases nothing changes. *)
Theorem disconnect_nothing_connected point o obj name m w :
  (extension_registry obj = None →
     ∀ f, ∃ msg, connect point o obj name f (m, w) = Raise (ValueError msg) (m, w)
               ∧ disconnect object_eq point o obj name (m, w)
                 = Raise (ValueError msg) (m, w))
  ∧ (extension_registry obj = Some tt → m !! o = None →
     disconnect object_eq point o obj name (m, w)
     = Raise (OtherError "KeyError") (m, w))
  ∧ (extension_registry obj = Some tt →
     ∀ listeners, m !! o = Some listeners → listeners !! name = None →
     disconnect object_eq point o obj name (m, w) = Ok tt (m, w)).
Proof.
  unfold connect, disconnect, bind, in_world, _get_extension_registry, gets.
  split_and!.
  - intros -> f. eexists. split; reflexivity.
  - intros -> Hm. simpl. by rewrite Hm.
  - intros -> listeners Hm Hname. simpl. by rewrite Hm, Hname.
Qed.

(** X24.  [connect] called twice for the same object and trait name drops
    the first listener: the entry of the object keeps only the second, and
    the first function, which nothing else refers to, is collected when
    the second call returns.  Its reference stays in the list of the id,
    expired, so that it is never called again; [disconnect] then removes
    the reference of the second listener and leaves the expired one in the
    list, and a further [disconnect] returns normally and changes
    nothing. *)
Theorem connect_twice_then_disconnect point o obj name f1 f2 m w :
  extension_registry obj = Some tt →
  f1 ≠ f2 →
  f2 ∉ collected w →
  default ∅ (m !! o) !! name ≠ Some (Callable f2) →
  (∀ y, y ∈ default [] (_listeners (registry w) !! Some (id point)) →
        referent y ≠ f2) →
  (∀ y, y ∈ default [] (_listeners (registry w) !! Some (id point)) →
        object_eq (referent y) f2 = false ∧ object_eq f2 (referent y) = false) →
  ∃ s1 s2 s3,
    connect point o obj name f1 (m, w) = Ok tt s1
    ∧ connect point o obj name f2 s1 = Ok tt s2
    ∧ s2.1 !! o = Some (<[name := Callable f2]> (default ∅ (m !! o)))
    ∧ _listeners (registry s2.2) !! Some (id point)
        = Some (default [] (_listeners (registry w) !! Some (id point))
                ++ [WeakRef f1; WeakRef f2])
    ∧ deref s2.2 (WeakRef f1) = None
    ∧ deref s2.2 (WeakRef f2) = Some (Callable f2)
    ∧ disconnect object_eq point o obj name s2 = Ok tt s3
    ∧ s3.1 !! o = Some (delete name (default ∅ (m !! o)))
    ∧ _listeners (registry s3.2) !! Some (id point)
        = Some (default [] (_listeners (registry w) !! Some (id point))
                ++ [WeakRef f1])
    ∧ deref s3.2 (WeakRef f1) = None
    ∧ disconnect object_eq point o obj name s3 = Ok tt s3.
Proof.
  intros Hreg Hne Halive2 Hentry Hnew Heq.
  set (old := default [] (_listeners (registry w) !! Some (id point))) in *.
  eexists _, _, _.
  split; [by apply connect_Ok|].
  split; [by apply connect_Ok|].
  simpl. rewrite !lookup_insert_eq; simpl. rewrite !lookup_insert_eq. fold old.
  split; [by rewrite insert_insert_eq|].
  split; [by rewrite <- app_assoc|].
  assert (dropped (Some (Callable f1)) (Some (Callable f2)) = {[f1]}) as Hdrop.
  { unfold dropped. rewrite decide_False; [done|]. congruence. }
  rewrite Hdrop.
  set (C := {[f1]} ∪ (dropped (default ∅ (m !! o) !! name) (Some (Callable f1))
                      ∪ collected w)).
  assert (f1 ∈ C) as Hdead1 by (subst C; set_solver).
  assert (f2 ∉ C) as Hlive2.
  { subst C. rewrite !not_elem_of_union, not_elem_of_singleton. split_and!; [done| |done].
    unfold dropped. destruct (default ∅ (m !! o) !! name) as [[self func|g]|];
      [set_solver| |set_solver].
    case_decide as Hg; [set_solver|]. apply not_elem_of_singleton. congruence. }
  split; [by rewrite decide_True|].
  split; [by rewrite decide_False|].
  split.
  { unfold disconnect, bind, in_world, _get_extension_registry, gets.
    rewrite Hreg; simpl. rewrite !lookup_insert_eq; simpl.
    rewrite ?lookup_insert_eq.
    unfold remove_extension_point_listener; simpl.
    rewrite ?lookup_insert_eq; simpl. fold old. rewrite ?Hdrop.
    set (w2 := with_collected _ _).
    assert (collected w2 = C) as HC by done.
    rewrite <-HC in Hlive2.
    assert (list_remove (λ item, weak_eq object_eq w2 item (WeakRef f2))
              ((old ++ [WeakRef f1]) ++ [WeakRef f2])
            = Some (old ++ [WeakRef f1])) as Hrem.
    { pose proof (remove_new_listener w2 (old ++ [WeakRef f1]) f2 [] Hlive2) as H.
      rewrite app_nil_r in H. apply H.
      intros y [Hy| ->%list_elem_of_singleton]%elem_of_app.
      - by apply weak_eq_new with old.
      - simpl. rewrite bool_decide_eq_false_2; [done|]. by intros []. }
    unfold _saferef. rewrite Hrem. reflexivity. }
  simpl. rewrite !lookup_insert_eq; simpl.
  split; [by rewrite insert_insert_eq, delete_insert_eq|].
  split; [done|].
  split.
  { rewrite decide_True; [done|]. fold C. set_solver. }
  unfold disconnect, bind, in_world, _get_extension_registry, gets.
  rewrite Hreg; simpl. rewrite !lookup_insert_eq; simpl.
  by rewrite lookup_delete_eq.
Qed.

End ConnectFacts.

(** ** The concrete program, continued *)

Lemma reader_keeps_removed refs i :
  listeners_keep reader refs
    (λ w, _extension_points (registry w) !! i = None ∧ stored_empty i w).
Proof.
  apply reader_keep. intros j w a w' Hget [Hnone Hempty].
  destruct (get_extensions_frame j w a w' Hget) as (_ & _ & Hpts & _ & H).
  split; [by rewrite Hpts|by apply H].
Qed.

Lemma listeners_of_x_in_listening :
  default [] (_listeners (registry listening) !! Some "x") = [WeakMethod 1 2].
Proof. vm_compute. reflexivity. Qed.

Lemma set_extensions_notifies_witness :
  _extension_points (registry with_list) !! "x" = Some x_point
  ∧ listeners_keep reader (listener_refs with_list "x")
      (λ w0, collected w0 = collected with_list)
  ∧ omap (deref with_list) (listener_refs with_list "x") = [A; B]
  ∧ ∃ ev w1 w2,
      _extensions (registry w1) = <["x" := 0%nat]> (_extensions (registry with_list))
      ∧ _extension_points (registry w1) = _extension_points (registry with_list)
      ∧ only_entries_changed with_list w1
      ∧ extension_point_id ev = "x"
      ∧ added ev = 0%nat
      ∧ contents w1 (removed ev) = stored with_list "x"
      ∧ index ev = None
      ∧ call_in_order reader
          (omap (deref with_list) (listener_refs with_list "x")) ev w1
        = Ok tt w2
      ∧ set_extensions reader "x" 0%nat with_list
          = Ok (ev, omap (deref with_list) (listener_refs with_list "x")) w2.
Proof.
  split; [vm_compute; reflexivity|].
  split; [apply reader_keeps_collected|].
  split; [vm_compute; reflexivity|].
  apply (set_extensions_notifies reader "x" x_point 0%nat with_list).
  - vm_compute; reflexivity.
  - apply reader_keeps_collected.
Defined.

Lemma set_extensions_stores_the_list_itself_witness :
  _extension_points (registry with_list) !! "x" = Some x_point
  ∧ listeners_keep reader (listener_refs with_list "x")
      (λ w0, _extensions (registry w0) !! "x" = Some 0%nat)
  ∧ ∃ ev called w1,
      set_extensions reader "x" 0%nat with_list = Ok (ev, called) w1
      ∧ _extensions (registry w1) !! "x" = Some 0%nat
      ∧ ∀ l, ∃ a w2,
          get_extensions "x" (state_of (mutate_list 0%nat l w1)) = Ok a w2
          ∧ contents w2 a = l.
Proof.
  split; [vm_compute; reflexivity|].
  split; [apply reader_keeps_entry|].
  apply (set_extensions_stores_the_list_itself reader "x" x_point 0%nat with_list).
  - vm_compute; reflexivity.
  - apply reader_keeps_entry.
Defined.


(** [A] is called and returns, then [B] raises. *)
Lemma listener_exception_propagates_witness :
  _extension_points (registry with_list) !! "x" = Some x_point
  ∧ listener_refs with_list "x" = [WeakMethod 1 2] ++ WeakRef 3 :: []
  ∧ listeners_keep B_fails [WeakMethod 1 2] (λ w0, collected w0 = collected with_list)
  ∧ deref with_list (WeakRef 3) = Some B
  ∧ omap (deref with_list) [WeakMethod 1 2] = [A]
  ∧ ∃ ev w1 w2,
      _extensions (registry w1) !! "x" = Some 0%nat
      ∧ only_entries_changed with_list w1
      ∧ added ev = 0%nat
      ∧ index ev = None
      ∧ call_in_order B_fails [A] ev w1 = Ok tt w2
      ∧ set_extensions B_fails "x" 0%nat with_list
        = Raise (OtherError "listener failed") w2.
Proof.
  assert (listeners_keep B_fails [WeakMethod 1 2]
            (λ w0, collected w0 = collected with_list)) as Hkeep.
  { intros r c ev w ->%list_elem_of_singleton Hd HI.
    assert (c = A) as ->.
    { simpl in Hd. case_decide; [done|]. by injection Hd as <-. }
    apply (reader_keeps_collected [WeakMethod 1 2] (collected with_list)
             (WeakMethod 1 2) A ev w); [by left|done|done]. }
  split; [vm_compute; reflexivity|].
  split; [vm_compute; reflexivity|].
  split; [exact Hkeep|].
  split; [vm_compute; reflexivity|].
  split; [vm_compute; reflexivity|].
  destruct (listener_exception_propagates B_fails "x" x_point 0%nat with_list
              [WeakMethod 1 2] (WeakRef 3) [] B)
    as (ev & w1 & w2 & Hstored & Hsame & Hadded & Hindex & Hcalls & Hraise).
  - vm_compute; reflexivity.
  - vm_compute; reflexivity.
  - exact Hkeep.
  - vm_compute; reflexivity.
  - exists ev, w1, w2. split_and!; try done. by apply Hraise.
Defined.

Lemma collected_listener_is_not_called_witness :
  1%nat ∈ objects_of A
  ∧ _extension_points (registry with_list) !! "x" = Some x_point
  ∧ listeners_keep reader
      (listener_refs (state_of (perform reader (Collect 1%nat) with_list)) "x")
      (λ w0, collected w0
             = collected (state_of (perform reader (Collect 1%nat) with_list)))
  ∧ ∃ ev called w2,
      set_extensions reader "x" 0%nat
        (state_of (perform reader (Collect 1%nat) with_list)) = Ok (ev, called) w2
      ∧ A ∉ called.
Proof.
  assert (1%nat ∈ objects_of A) as Hin.
  { apply (bool_decide_unpack _). vm_compute. exact I. }
  split; [exact Hin|].
  split; [vm_compute; reflexivity|].
  split; [apply reader_keeps_collected|].
  apply (collected_listener_is_not_called reader A 1%nat "x" x_point 0%nat with_list).
  - exact Hin.
  - vm_compute; reflexivity.
  - apply reader_keeps_collected.
Defined.

Lemma get_extensions_changes_no_extensions_witness :
  (∀ j s, _extensions (registry contributed) !! j = Some s →
          s ∈ dom (heap contributed))
  ∧ ∃ a w',
      get_extensions "x" contributed = Ok a w'
      ∧ (a ∉ dom (heap contributed))
      ∧ contents w' a = stored contributed "x"
      ∧ (∀ j, stored w' j = stored contributed j)
      ∧ (∀ b, b ∈ dom (heap contributed) → contents w' b = contents contributed b)
      ∧ _extension_points (registry w') = _extension_points (registry contributed)
      ∧ _listeners (registry w') = _listeners (registry contributed)
      ∧ collected w' = collected contributed.
Proof.
  destruct (reachable_consistent reader contributed reader_consistent
              reachable_contributed) as (_ & Halloc & _).
  split; [exact Halloc|].
  apply (get_extensions_changes_no_extensions "x" contributed Halloc).
Defined.

Lemma get_after_remove_extension_point_witness :
  _extension_points (registry contributed) !! "x" = Some x_point
  ∧ listeners_keep reader (listener_refs contributed "x")
      (λ w0, _extension_points (registry w0) !! "x" = None ∧ stored_empty "x" w0)
  ∧ ∃ ev called w1 a w2,
      remove_extension_point reader "x" contributed = Ok (ev, called) w1
      ∧ get_extension_point "x" w1 = Ok None w1
      ∧ get_extensions "x" w1 = Ok a w2
      ∧ contents w2 a = [].
Proof.
  split; [vm_compute; reflexivity|].
  split; [apply reader_keeps_removed|].
  apply (get_after_remove_extension_point reader "x" x_point contributed).
  - vm_compute; reflexivity.
  - apply reader_keeps_removed.
Defined.

(** A bound method that is added and removed again, with identity as
    equality. *)
Lemma add_then_remove_listener_witness :
  deref listening (_saferef (BoundMethod 6 7)) = Some (BoundMethod 6 7)
  ∧ (∀ self func, BoundMethod 6 7 = BoundMethod self func →
       identical self self = true ∧ identical func func = true)
  ∧ (∀ y, y ∈ default [] (_listeners (registry listening) !! Some "x") →
          weak_eq identical listening y (_saferef (BoundMethod 6 7)) = false)
  ∧ ∃ w1 w2,
      add_extension_point_listener (BoundMethod 6 7) (Some "x") listening = Ok tt w1
      ∧ remove_extension_point_listener identical (BoundMethod 6 7) (Some "x") w1
        = Ok tt w2
      ∧ _listeners (registry w2) !! Some "x"
          = Some (default [] (_listeners (registry listening) !! Some "x"))
      ∧ (∀ k', k' ≠ Some "x" →
           _listeners (registry w2) !! k' = _listeners (registry listening) !! k')
      ∧ (∀ i, listener_refs w2 i = listener_refs listening i)
      ∧ _extensions (registry w2) = _extensions (registry listening)
      ∧ _extension_points (registry w2) = _extension_points (registry listening)
      ∧ heap w2 = heap listening.
Proof.
  assert (∀ self func, BoundMethod 6 7 = BoundMethod self func →
            identical self self = true ∧ identical func func = true) as Hrefl.
  { intros self func [= <- <-]. split; reflexivity. }
  assert (∀ y, y ∈ default [] (_listeners (registry listening) !! Some "x") →
               weak_eq identical listening y (_saferef (BoundMethod 6 7)) = false)
    as Hnew.
  { rewrite listeners_of_x_in_listening. intros y ->%list_elem_of_singleton.
    vm_compute. reflexivity. }
  split; [vm_compute; reflexivity|].
  split; [exact Hrefl|].
  split; [exact Hnew|].
  apply (add_then_remove_listener identical (BoundMethod 6 7) (Some "x") listening).
  - vm_compute; reflexivity.
  - exact Hrefl.
  - exact Hnew.
Defined.

Lemma remove_listener_never_added_witness :
  (∀ y, y ∈ default [] (_listeners (registry listening) !! Some "x") →
        weak_eq identical listening y (_saferef B) = false)
  ∧ ∃ w',
      remove_extension_point_listener identical B (Some "x") listening
        = Raise (ValueError "list.remove(x): x not in list") w'
      ∧ (∀ k', default [] (_listeners (registry w') !! k')
               = default [] (_listeners (registry listening) !! k'))
      ∧ (∀ i, listener_refs w' i = listener_refs listening i)
      ∧ _extensions (registry w') = _extensions (registry listening)
      ∧ _extension_points (registry w') = _extension_points (registry listening)
      ∧ heap w' = heap listening.
Proof.
  assert (∀ y, y ∈ default [] (_listeners (registry listening) !! Some "x") →
               weak_eq identical listening y (_saferef B) = false) as Hnew.
  { rewrite listeners_of_x_in_listening. intros y ->%list_elem_of_singleton.
    vm_compute. reflexivity. }
  split; [exact Hnew|].
  apply (remove_listener_never_added identical B (Some "x") listening Hnew).
Defined.

(** The callable 5 was never added, but is equal to [B], which listens to
    every id: removing 5 removes the registration of [B]. *)
Lemma remove_listener_removes_first_registration_witness :
  WeakRef 3 ∈ default [] (_listeners (registry listening) !! None)
  ∧ weak_eq alike listening (WeakRef 3) (_saferef (Callable 5)) = true
  ∧ _saferef (Callable 5) ∉ default [] (_listeners (registry listening) !! None)
  ∧ ∃ w' l1 y l2,
      remove_extension_point_listener alike (Callable 5) None listening = Ok tt w'
      ∧ default [] (_listeners (registry listening) !! None) = l1 ++ y :: l2
      ∧ _listeners (registry w') !! None = Some (l1 ++ l2)
      ∧ weak_eq alike listening y (_saferef (Callable 5)) = true
      ∧ (∀ z, z ∈ l1 → weak_eq alike listening z (_saferef (Callable 5)) = false)
      ∧ (∀ k', k' ≠ None →
           _listeners (registry w') !! k' = _listeners (registry listening) !! k').
Proof.
  assert (WeakRef 3 ∈ default [] (_listeners (registry listening) !! None)) as Hin.
  { apply (bool_decide_unpack _). vm_compute. exact I. }
  split; [exact Hin|].
  split; [vm_compute; reflexivity|].
  split; [apply (bool_decide_unpack _); vm_compute; exact I|].
  apply (remove_listener_removes_first_registration alike (Callable 5) None
           listening (WeakRef 3)).
  - exact Hin.
  - vm_compute; reflexivity.
Defined.

Lemma value_without_registry_witness :
  extension_point._internal_use lone = false
  ∧ extension_point._object lone = Some lone_owner
  ∧ extension_point._name lone = Some "exts"
  ∧ extension_point.traits lone_owner !! "exts" = Some x_point
  ∧ extension_point.extension_registry lone_owner = None
  ∧ ∃ msg,
      extension_point.__len__ lone contributed = Raise (ValueError msg) contributed
      ∧ extension_point.attempt plain___setitem__ plain___delitem__
          (extension_point.Append 3) lone contributed
        = Ok (lone, None)
            (with_warnings (λ ws, ws ++ ["Extension point cannot be mutated directly."])
               contributed)
      ∧ extension_point.attempt plain___setitem__ plain___delitem__
          (extension_point.IMul 2) lone contributed
        = Raise (ValueError msg)
            (with_warnings (λ ws, ws ++ ["Extension point cannot be mutated directly."])
               contributed).
Proof.
  split_and!; try reflexivity.
  destruct (value_without_registry plain___setitem__ plain___delitem__
              lone lone_owner "exts" x_point contributed)
    as (msg & Hlen & _ & _ & Happend & _ & _ & _ & Himul); try reflexivity.
  exists msg. split_and!; [exact Hlen|apply Happend|apply Himul].
Defined.

Lemma _internal_sync_lets_TraitList_mutate_witness :
  extension_point._internal_sync
    (extension_point.on_value
       (λ s, extension_point.__setitem__ plain___setitem__ s (Index 0)
               (extension_point.Item 9)))
    (cached, contributed)
  = Ok tt (extension_point.set_internal_use
             (extension_point.set_data cached [9; 2; 3]) false, contributed).
Proof.
  apply (proj1 (_internal_sync_lets_TraitList_mutate plain___setitem__
                  plain___delitem__ cached (Index 0) (extension_point.Item 9)
                  contributed)).
  reflexivity.
Defined.

Lemma plain_mutators_always_refused_witness :
  extension_point.attempt plain___setitem__ plain___delitem__
    (extension_point.Clear) lone contributed
  = Ok (lone, None)
      (with_warnings (λ ws, ws ++ ["Extension point cannot be mutated directly."])
         contributed)
  ∧ extension_point._internal_sync
      (extension_point.on_value
         (extension_point.attempt plain___setitem__ plain___delitem__
            extension_point.Clear))
      (lone, contributed)
    = Ok None
        (extension_point.set_internal_use lone false,
         with_warnings (λ ws, ws ++ ["Extension point cannot be mutated directly."])
           contributed).
Proof.
  apply (plain_mutators_always_refused plain___setitem__ plain___delitem__
           extension_point.Clear lone contributed).
  exact I.
Defined.

Lemma indexing_follows_the_registry_witness :
  extension_point.bound cached "x"
  ∧ value_of (extension_point.__len__ cached contributed) = inl 3%nat
  ∧ value_of (extension_point.__getitem__ cached (Index (-1)) contributed)
      = inl (extension_point.Item 3)
  ∧ value_of (extension_point.__getitem__ cached (Index 3) contributed)
      = inr IndexError.
Proof.
  split; [apply bound_cached|].
  destruct (indexing_follows_the_registry cached "x" (-1) contributed bound_cached)
    as (Hlen & _ & Hneg & _).
  destruct (indexing_follows_the_registry cached "x" 3 contributed bound_cached)
    as (_ & _ & _ & Hout).
  assert (stored contributed "x" = [1; 2; 3]) as Hst by (vm_compute; reflexivity).
  rewrite Hst in Hlen, Hneg, Hout. simpl in Hlen, Hneg, Hout.
  split; [exact Hlen|]. split.
  - destruct Hneg as (x & Hx & ->); [lia|].
    simpl in Hx. by injection Hx as <-.
  - apply Hout. right. lia.
Defined.

Lemma slicing_follows_the_registry_witness :
  extension_point.bound cached "x"
  ∧ ∃ a w',
      extension_point.__getitem__ cached (Slice (Some 1) None None) contributed
        = Ok (extension_point.ListRef a) w'
      ∧ contents w' a = [2; 3].
Proof.
  split; [apply bound_cached|].
  destruct (slicing_follows_the_registry cached "x" (Some 1) None contributed
              bound_cached) as [(a & w' & Hget & Hc) _].
  exists a, w'. split; [exact Hget|]. rewrite Hc. vm_compute. reflexivity.
Defined.


Lemma connect_then_disconnect_witness :
  extension_point.extension_registry owner = Some tt
  ∧ 5%nat ∉ collected listening
  ∧ ∃ s1 s2,
      extension_point.connect x_point 7%nat owner "exts" 5%nat (∅, listening)
        = Ok tt s1
      ∧ extension_point.disconnect identical x_point 7%nat owner "exts" s1 = Ok tt s2
      ∧ s2.1 !! 7%nat = Some ∅
      ∧ _listeners (registry s2.2) !! Some "x" = Some [WeakMethod 1 2]
      ∧ ∀ i, listener_refs s2.2 i = listener_refs listening i.
Proof.
  assert (5%nat ∉ collected listening) as Halive.
  { apply (bool_decide_unpack _). vm_compute. exact I. }
  split; [reflexivity|]. split; [exact Halive|].
  destruct (connect_then_disconnect identical x_point 7%nat owner "exts" 5%nat ∅
              listening)
    as (s1 & s2 & H1 & _ & _ & H2 & Hm & _ & Hl & Hd & _).
  - reflexivity.
  - exact Halive.
  - change (id x_point) with "x". rewrite listeners_of_x_in_listening.
    intros y ->%list_elem_of_singleton. simpl. lia.
  - change (id x_point) with "x". rewrite listeners_of_x_in_listening.
    intros y ->%list_elem_of_singleton. split; reflexivity.
  - exists s1, s2. split_and!; done.
Defined.

Lemma disconnect_nothing_connected_witness :
  (∃ msg, extension_point.disconnect identical x_point 7%nat lone_owner "exts"
            (∅, listening)
          = Raise (ValueError msg) (∅, listening))
  ∧ extension_point.disconnect identical x_point 7%nat owner "exts" (∅, listening)
    = Raise (OtherError "KeyError") (∅, listening)
  ∧ extension_point.disconnect identical x_point 7%nat owner "exts"
      ({[7%nat := {["other" := Callable 5]}]}, listening)
    = Ok tt ({[7%nat := {["other" := Callable 5]}]}, listening).
Proof.
  split_and!.
  - destruct (proj1 (disconnect_nothing_connected identical x_point 7%nat lone_owner
                       "exts" ∅ listening) eq_refl 5%nat) as (msg & _ & H).
    by exists msg.
  - apply (proj1 (proj2 (disconnect_nothing_connected identical x_point 7%nat owner
                           "exts" ∅ listening)) eq_refl).
    reflexivity.
  - apply (proj2 (proj2 (disconnect_nothing_connected identical x_point 7%nat owner
                           "exts" {[7%nat := {["other" := Callable 5]}]} listening))
             eq_refl {["other" := Callable 5]}).
    + vm_compute; reflexivity.
    + vm_compute; reflexivity.
Defined.

Lemma connect_twice_then_disconnect_witness :
  extension_point.extension_registry owner = Some tt
  ∧ 5%nat ≠ 6%nat
  ∧ 6%nat ∉ collected listening
  ∧ ∃ s1 s2 s3,
      extension_point.connect x_point 7%nat owner "exts" 5%nat (∅, listening)
        = Ok tt s1
      ∧ extension_point.connect x_point 7%nat owner "exts" 6%nat s1 = Ok tt s2
      ∧ _listeners (registry s2.2) !! Some "x"
          = Some [WeakMethod 1 2; WeakRef 5; WeakRef 6]
      ∧ deref s2.2 (WeakRef 5) = None
      ∧ deref s2.2 (WeakRef 6) = Some (Callable 6)
      ∧ extension_point.disconnect identical x_point 7%nat owner "exts" s2 = Ok tt s3
      ∧ s3.1 !! 7%nat = Some ∅
      ∧ _listeners (registry s3.2) !! Some "x" = Some [WeakMethod 1 2; WeakRef 5]
      ∧ deref s3.2 (WeakRef 5) = None
      ∧ extension_point.disconnect identical x_point 7%nat owner "exts" s3 = Ok tt s3.
Proof.
  assert (6%nat ∉ collected listening) as Halive2.
  { apply (bool_decide_unpack _). vm_compute. exact I. }
  split; [reflexivity|]. split; [lia|]. split; [exact Halive2|].
  destruct (connect_twice_then_disconnect identical x_point 7%nat owner "exts"
              5%nat 6%nat ∅ listening)
    as (s1 & s2 & s3 & H1 & H2 & _ & Hl2 & Hd1 & Hd2 & H3 & Hm & Hl & Hd3 & H4).
  - reflexivity.
  - lia.
  - exact Halive2.
  - vm_compute. discriminate.
  - change (id x_point) with "x". rewrite listeners_of_x_in_listening.
    intros y ->%list_elem_of_singleton. simpl. lia.
  - change (id x_point) with "x". rewrite listeners_of_x_in_listening.
    intros y ->%list_elem_of_singleton. split; reflexivity.
  - exists s1, s2, s3. split_and!; done.
Defined.
